(** * EVolution: the station discovery view and the QR scanner

    A shallow embedding of the two components of the EV charging
    application that carry its logic,

      - [src/components/MapView.tsx]: the search filter, the station
        markers, the popup bridge [window.selectStation], the charging
        banner, the access-token notice and the amenity tags;
      - [src/components/QRScanner.tsx]: the scan poll loop and its
        handlers;

    together with the statements of the specification that concern them.

    A string literal stands for the JavaScript string whose UTF-8
    encoding it is.  The modules [JsString] and [MapView] work on the bytes
    of the literals, with the case conversion of the ASCII range, which is
    the range of the station data and of the literals of the program; the
    module [Unicode] has the built-in [toLowerCase] on UTF-16 code units,
    with the case mappings of the Unicode Character Database, proves that
    the two agree on ASCII text and states what the search does beyond it.
    Numbers that the program only carries around (coordinates, price) are
    rationals. *)

From Stdlib Require Import QArith Ascii String.
From stdpp Require Import list strings gmap pretty.

Local Open Scope string_scope.

(** ** The string built-ins used by the program *)

Module JsString.

(** [String.prototype.toLowerCase] on the ASCII range, one byte at a time:
    ['A'..'Z'] move to ['a'..'z'], every other byte is left alone.  On a
    literal with no byte above 127 this is the built-in
    ([Unicode.toLowerCase_ascii]); for other text see [Unicode.toLowerCase]. *)
Definition lowerChar (c : ascii) : ascii :=
  let n := nat_of_ascii c in
  if (65 <=? n)%nat && (n <=? 90)%nat then ascii_of_nat (n + 32) else c.

Fixpoint toLowerCase (s : string) : string :=
  match s with
  | EmptyString => EmptyString
  | String c s' => String (lowerChar c) (toLowerCase s')
  end.

(** [startsWith s p]: [p] is an initial segment of [s]. *)
Fixpoint startsWith (s p : string) {struct p} : bool :=
  match p, s with
  | EmptyString, _ => true
  | String _ _, EmptyString => false
  | String a p', String b s' => if Ascii.eqb a b then startsWith s' p' else false
  end.

(** [String.prototype.includes]: [sub] occurs in [s] at some position. *)
Fixpoint includes (s sub : string) : bool :=
  startsWith s sub ||
  match s with
  | EmptyString => false
  | String _ s' => includes s' sub
  end.

(** JavaScript truthiness of a string: only the empty string is falsy. *)
Definition truthy (s : string) : bool :=
  match s with EmptyString => false | String _ _ => true end.

(** [a || b] on strings where the left operand may be [undefined]. *)
Definition orElse (a : option string) (b : string) : string :=
  match a with
  | Some s => if truthy s then s else b
  | None => b
  end.

(** The words of the specification: [q] occurs in [s] up to letter case. *)
Definition ci_substring (q s : string) : Prop :=
  ∃ pre mid post : string,
    s = pre ++ mid ++ post ∧ toLowerCase mid = toLowerCase q.

(** [sub] occurs in [s] literally. *)
Definition occurs (sub s : string) : Prop :=
  ∃ pre post : string, s = pre ++ sub ++ post.

(** The white space of the ASCII range: tab, line feed, vertical tab,
    form feed, carriage return and space. *)
Definition isSpaceChar (c : ascii) : bool :=
  let n := nat_of_ascii c in
  ((9 <=? n)%nat && (n <=? 13)%nat) || (n =? 32)%nat.

Fixpoint allSpace (s : string) : bool :=
  match s with
  | EmptyString => true
  | String c s' => isSpaceChar c && allSpace s'
  end.

(** A query consisting only of white space (and not empty). *)
Definition is_whitespace (s : string) : Prop :=
  s ≠ "" ∧ allSpace s = true.

Lemma startsWith_spec s p : startsWith s p = true ↔ ∃ post, s = p ++ post.
Proof.
  revert s; induction p as [|a p IH]; intros s; simpl.
  - split; [intros _; by exists s | done].
  - destruct s as [|b s].
    + split; [done | intros [post H]; discriminate H].
    + destruct (Ascii.eqb_spec a b) as [->|Hne].
      * rewrite IH. split; intros [post H]; exists post.
        -- by rewrite H.
        -- by injection H.
      * split; [done | intros [post H]; injection H; congruence].
Qed.

Lemma includes_spec s sub : includes s sub = true ↔ occurs sub s.
Proof.
  unfold occurs. induction s as [|c s IH]; simpl.
  - rewrite orb_false_r, startsWith_spec. split.
    + intros [post H]. by exists "", post.
    + intros [pre [post H]]. destruct pre; [by exists post | discriminate H].
  - rewrite orb_true_iff, startsWith_spec, IH. split.
    + intros [[post H] | [pre [post H]]].
      * by exists "", post.
      * exists (String c pre), post. simpl. by rewrite H.
    + intros [pre [post H]]. destruct pre as [|c' pre]; simpl in H.
      * left. by exists post.
      * right. exists pre, post. by injection H.
Qed.

Lemma includes_empty s : includes s "" = true.
Proof. destruct s; reflexivity. Qed.

Lemma toLowerCase_app s t :
  toLowerCase (s ++ t) = toLowerCase s ++ toLowerCase t.
Proof. induction s as [|c s IH]; simpl; [done | by rewrite IH]. Qed.

(** Case conversion works unit by unit, so a split of the converted
    string is the image of a split of the original. *)
Lemma toLowerCase_split s a b :
  toLowerCase s = a ++ b →
  ∃ x y, s = x ++ y ∧ toLowerCase x = a ∧ toLowerCase y = b.
Proof.
  revert s; induction a as [|c a IH]; intros s H; simpl in H.
  - by exists "", s.
  - destruct s as [|d s]; simpl in H; [discriminate H|].
    injection H as Hc Hs.
    destruct (IH _ Hs) as (x & y & -> & Hx & Hy).
    exists (String d x), y. simpl. by rewrite Hc, Hx.
Qed.

(** The test of the program decides the relation of the specification. *)
Lemma includes_ci_substring s q :
  includes (toLowerCase s) (toLowerCase q) = true ↔ ci_substring q s.
Proof.
  rewrite includes_spec. unfold occurs, ci_substring. split.
  - intros (pre & post & H).
    apply toLowerCase_split in H as (x & r & -> & Hx & Hr).
    apply toLowerCase_split in Hr as (m & y & -> & Hm & Hy).
    by exists x, m, y.
  - intros (pre & mid & post & -> & Hmid).
    exists (toLowerCase pre), (toLowerCase post).
    by rewrite !toLowerCase_app, Hmid.
Qed.

Lemma lowerChar_space c d :
  isSpaceChar d = true → lowerChar c = d → c = d.
Proof.
  intros Hd <-. revert Hd.
  destruct c as [[] [] [] [] [] [] [] []]; vm_compute; congruence.
Qed.

Lemma lowerChar_space_id d : isSpaceChar d = true → lowerChar d = d.
Proof.
  destruct d as [[] [] [] [] [] [] [] []]; vm_compute; congruence.
Qed.

Lemma toLowerCase_space_id q : allSpace q = true → toLowerCase q = q.
Proof.
  induction q as [|d q IH]; simpl; [done|].
  intros [Hd Hq]%andb_true_iff. by rewrite lowerChar_space_id, IH.
Qed.

Lemma toLowerCase_space s q :
  allSpace q = true → toLowerCase s = q → s = q.
Proof.
  revert s; induction q as [|d q IH]; intros [|c s]; simpl;
    intros Hq Hs; try discriminate Hs; [done|].
  apply andb_true_iff in Hq as [Hd Hq]. injection Hs as Hc Hs.
  f_equal; [by apply lowerChar_space | by apply IH].
Qed.

(** White space has no letter case: for such a query the test of the
    program is that of a literal occurrence. *)
Lemma includes_whitespace s q :
  allSpace q = true →
  includes (toLowerCase s) (toLowerCase q) = true ↔ occurs q s.
Proof.
  intros Hq. rewrite includes_ci_substring. unfold ci_substring, occurs.
  split.
  - intros (pre & mid & post & -> & Hmid).
    rewrite (toLowerCase_space_id q Hq) in Hmid.
    apply toLowerCase_space in Hmid as ->; [|done].
    by exists pre, post.
  - intros (pre & post & ->). by exists pre, q, post.
Qed.

(** *** Further facts on the built-ins *)



Lemma string_app_assoc (a b c : string) : (a ++ b) ++ c = a ++ b ++ c.
Proof.
  induction a as [|x a IH]; [done|].
  change (String x ((a ++ b) ++ c) = String x (a ++ b ++ c)). by rewrite IH.
Qed.

Lemma occurs_trans a b c : occurs a b → occurs b c → occurs a c.
Proof.
  intros (p1 & s1 & ->) (p2 & s2 & ->).
  exists (p2 ++ p1), (s1 ++ s2). by rewrite !string_app_assoc.
Qed.

Lemma includes_trans a b c :
  includes b a = true → includes c b = true → includes c a = true.
Proof. rewrite !includes_spec. apply occurs_trans. Qed.

End JsString.

(** ** [MapView.tsx]: the discovery view *)

Module MapView.
Import JsString.

(** [interface ChargingStation].  The declared type of [status] is the
    union ['available' | 'busy' | 'offline']; at run time it is a string,
    and [getStatusColor] takes it as one. *)
Record ChargingStation := {
  id : string;
  name : string;
  address : string;
  lat : Q;
  lng : Q;
  available : Z;
  total : Z;
  cost : Q;
  amenities : list string;
  status : string
}.

Definition declared_status (s : string) : Prop :=
  s = "available" ∨ s = "busy" ∨ s = "offline".

(** The registry of the test suites ([mockStations]). *)
Definition downtownPlaza : ChargingStation :=
  {| id := "1"; name := "Downtown Plaza";
     address := "123 Main St, Miami, FL";
     lat := 25.7617; lng := -80.1918; available := 3; total := 4;
     cost := 0.35; amenities := ["Restaurant"; "WiFi"; "Restroom"];
     status := "available" |}.

Definition airportTerminal : ChargingStation :=
  {| id := "2"; name := "Airport Terminal";
     address := "2100 NW 42nd Ave, Miami, FL";
     lat := 25.7959; lng := -80.2870; available := 0; total := 6;
     cost := 0.42; amenities := ["Food Court"; "Shopping"];
     status := "busy" |}.

Definition beachResort : ChargingStation :=
  {| id := "3"; name := "Beach Resort";
     address := "1701 Collins Ave, Miami Beach, FL";
     lat := 25.7907; lng := -80.1300; available := 2; total := 3;
     cost := 0.38; amenities := ["Hotel"; "Restaurant"; "Valet"];
     status := "offline" |}.

Definition mockStations : list ChargingStation :=
  [downtownPlaza; airportTerminal; beachResort].

(** *** The search filter *)

(** The predicate handed to [stations.filter], on the bytes of the
    literals; for ASCII names, addresses and queries it is the predicate
    with the built-in conversion ([Unicode.matchesQuery_ascii]). *)
Definition matchesQuery (searchQuery : string) (station : ChargingStation) : bool :=
  includes (toLowerCase (name station)) (toLowerCase searchQuery)
  || includes (toLowerCase (address station)) (toLowerCase searchQuery).

Definition filteredStations (stations : list ChargingStation)
    (searchQuery : string) : list ChargingStation :=
  List.filter (matchesQuery searchQuery) stations.

(** The specification's reading of a match. *)
Definition ci_match (q : string) (s : ChargingStation) : Prop :=
  ci_substring q (name s) ∨ ci_substring q (address s).

Lemma matchesQuery_ci_match q s : matchesQuery q s = true ↔ ci_match q s.
Proof.
  unfold matchesQuery, ci_match.
  by rewrite orb_true_iff, !includes_ci_substring.
Qed.

Example filter_downtown :
  map id (filteredStations mockStations "DOWNtown") = ["1"].
Proof. reflexivity. Qed.

Example filter_miami_beach :
  map id (filteredStations mockStations "Miami Beach") = ["3"].
Proof. reflexivity. Qed.

Example filter_miami :
  map id (filteredStations mockStations "miami") = ["1"; "2"; "3"].
Proof. reflexivity. Qed.

Section ListFilter.
Context {A : Type} (f : A → bool).

Lemma js_filter_sublist (l : list A) : List.filter f l `sublist_of` l.
Proof.
  induction l as [|x l IH]; simpl; [constructor|].
  destruct (f x); by constructor.
Qed.

Lemma js_filter_elem_of (l : list A) (x : A) :
  x ∈ List.filter f l ↔ x ∈ l ∧ f x = true.
Proof. rewrite !list_elem_of_In. apply filter_In. Qed.

(** Nothing that passes the test is dropped: every order-preserving
    selection of passing elements is already inside the result. *)
Lemma js_filter_greatest (k l : list A) :
  k `sublist_of` l → Forall (λ x, f x = true) k →
  k `sublist_of` List.filter f l.
Proof.
  induction 1 as [|x k l _ IH|x k l _ IH]; intros Hk; simpl.
  - constructor.
  - inversion Hk as [|? ? Hx Hk']; subst. rewrite Hx.
    constructor. by apply IH.
  - destruct (f x); [constructor|]; by apply IH.
Qed.

Lemma js_filter_all (l : list A) :
  Forall (λ x, f x = true) l → List.filter f l = l.
Proof.
  induction 1 as [|x l Hx _ IH]; simpl; [done|]. by rewrite Hx, IH.
Qed.

Lemma js_filter_none (l : list A) :
  Forall (λ x, f x = false) l → List.filter f l = [].
Proof.
  induction 1 as [|x l Hx _ IH]; simpl; [done|]. by rewrite Hx.
Qed.
End ListFilter.

(** *** Empty and white-space queries *)

(** The specification's reading of a literal match. *)
Definition literal_match (q : string) (s : ChargingStation) : Prop :=
  occurs q (name s) ∨ occurs q (address s).

Lemma matchesQuery_whitespace q s :
  allSpace q = true → matchesQuery q s = true ↔ literal_match q s.
Proof.
  intros Hq. unfold matchesQuery, literal_match.
  by rewrite orb_true_iff, !includes_whitespace.
Qed.

(** C2, as the program has it.  The empty query returns the input
    sequence unchanged.  A query of white space only is an ordinary
    search string: the result is the subsequence of the stations whose
    name or address contains that white space literally. *)
Theorem filteredStations_empty_query (S : list ChargingStation) :
  filteredStations S "" = S
  ∧ ∀ q, is_whitespace q →
      filteredStations S q `sublist_of` S
      ∧ ∀ s, s ∈ filteredStations S q ↔ s ∈ S ∧ literal_match q s.
Proof.
  split.
  - apply js_filter_all, Forall_forall. intros s _.
    unfold matchesQuery. simpl. by rewrite includes_empty.
  - intros q [_ Hq]. split; [apply js_filter_sublist|].
    intros s. unfold filteredStations.
    by rewrite js_filter_elem_of, matchesQuery_whitespace.
Qed.

Lemma filteredStations_empty_query_witness :
  filteredStations mockStations "" = mockStations
  ∧ filteredStations mockStations " " `sublist_of` mockStations.
Proof.
  destruct (filteredStations_empty_query mockStations) as [Hid Hws].
  split; [exact Hid|].
  apply (Hws " "). split; [discriminate | reflexivity].
Defined.

(** C2 as stated fails: two spaces are a white-space query, and no
    station of the sample registry survives it. *)
Lemma whitespace_query_not_identity :
  is_whitespace "  "
  ∧ filteredStations mockStations "  " = []
  ∧ filteredStations mockStations "  " ≠ mockStations.
Proof.
  split; [split; [discriminate | reflexivity]|].
  split; [reflexivity | discriminate].
Qed.

(** *** Status colours *)

(** The colour handed to [mapboxgl.Marker] for a station of the given
    status (the conditional expression inside [stations.forEach]). *)
Definition markerColor (status : string) : string :=
  if String.eqb status "available" then "#10B981"
  else if String.eqb status "busy" then "#F59E0B"
  else "#EF4444".

(** The text class of the status badge of a station card. *)
Definition getStatusColor (status : string) : string :=
  if String.eqb status "available" then "text-green-600"
  else if String.eqb status "busy" then "text-orange-500"
  else if String.eqb status "offline" then "text-red-500"
  else "text-gray-500".


(** The colour families the specification speaks of, and the family of each
    colour literal of the view: [#10B981], [#F59E0B] and [#EF4444] are the
    emerald, amber and red of the palette whose classes the badge uses. *)
Inductive Hue := Green | Orange | Red | Gray.

Definition hueOf (colour : string) : option Hue :=
  if String.eqb colour "#10B981" || String.eqb colour "text-green-600" then Some Green
  else if String.eqb colour "#F59E0B" || String.eqb colour "text-orange-500" then Some Orange
  else if String.eqb colour "#EF4444" || String.eqb colour "text-red-500" then Some Red
  else if String.eqb colour "text-gray-500" then Some Gray
  else None.

(** The table of the specification. *)
Definition specHue (status : string) : Hue :=
  if String.eqb status "available" then Green
  else if String.eqb status "busy" then Orange
  else if String.eqb status "offline" then Red
  else Gray.

Ltac case_status status :=
  destruct (String.eqb_spec status "available") as [->|?];
  [|destruct (String.eqb_spec status "busy") as [->|?];
    [|destruct (String.eqb_spec status "offline") as [->|?]]].

(** C6, as the program has it.  The marker colour depends on the status
    alone: available is green, busy is orange, and every other value, offline
    or not declared, is red; on the three declared values this is the table
    of the specification.  Only the badge of the station card has a gray
    default. *)
Theorem markerColor_table (status : string) :
  markerColor "available" = "#10B981"
  ∧ markerColor "busy" = "#F59E0B"
  ∧ (status ≠ "available" → status ≠ "busy" → markerColor status = "#EF4444")
  ∧ (declared_status status → hueOf (markerColor status) = Some (specHue status))
  ∧ hueOf (getStatusColor status) = Some (specHue status).
Proof.
  unfold markerColor, getStatusColor, specHue.
  split; [done|]. split; [done|]. split; [|split].
  - intros Ha Hb. case_status status; done.
  - intros [->| [->| ->]]; reflexivity.
  - case_status status; reflexivity.
Qed.

Lemma markerColor_table_witness :
  markerColor "offline" = "#EF4444"
  ∧ hueOf (markerColor "busy") = Some Orange.
Proof.
  split.
  - destruct (markerColor_table "offline") as (_ & _ & Hother & _).
    by apply Hother.
  - destruct (markerColor_table "busy") as (_ & _ & _ & Hdeclared & _).
    apply Hdeclared. right; by left.
Defined.

(** C6 as stated fails: a status outside the declared three gets the red
    marker of an offline station, not a gray one. *)
Lemma markerColor_unrecognized_not_gray :
  ¬ declared_status "maintenance"
  ∧ markerColor "maintenance" = markerColor "offline"
  ∧ hueOf (markerColor "maintenance") = Some Red
  ∧ hueOf (markerColor "maintenance") ≠ Some (specHue "maintenance").
Proof.
  split; [intros [H|[H|H]]; discriminate H|].
  split; [reflexivity|]. split; [reflexivity | discriminate].
Qed.

(** *** Amenity tags of a station card *)

Definition amenityTags (amenities : list string) : list string :=
  (take 3 amenities
   ++ (if (3 <? length amenities)%nat
       then ["+" +:+ pretty (length amenities - 3)%nat +:+ " more"]
       else []))%list.

Example amenityTags_five :
  amenityTags ["Restaurant"; "WiFi"; "Restroom"; "Parking"; "Shopping"]
  = ["Restaurant"; "WiFi"; "Restroom"; "+2 more"].
Proof. reflexivity. Qed.

(** C9. A station card shows the first three amenities in order; with more
    than three amenities one further tag reads [+N more] for [N] the number
    of amenities minus three; with three or fewer the tags are the amenities
    themselves and there is no such tag. *)
Theorem amenityTags_limit (amenities : list string) :
  take 3 (amenityTags amenities) = take 3 amenities
  ∧ ((length amenities ≤ 3)%nat → amenityTags amenities = amenities)
  ∧ ((3 < length amenities)%nat →
      ∃ N : nat, length amenities = (N + 3)%nat
        ∧ amenityTags amenities
          = (take 3 amenities ++ ["+" +:+ pretty N +:+ " more"])%list).
Proof.
  unfold amenityTags. split; [|split].
  - destruct (Nat.ltb_spec 3 (length amenities)) as [H|H].
    + rewrite take_app_le by (rewrite length_take; lia).
      by rewrite take_take.
    + by rewrite app_nil_r, take_take.
  - intros H. destruct (Nat.ltb_spec 3 (length amenities)); [lia|].
    by rewrite app_nil_r, take_ge.
  - intros H. destruct (Nat.ltb_spec 3 (length amenities)); [|lia].
    exists (length amenities - 3)%nat. split; [lia | done].
Qed.

Lemma amenityTags_limit_witness :
  amenityTags (amenities downtownPlaza) = amenities downtownPlaza
  ∧ ∃ N : nat, 5%nat = (N + 3)%nat
      ∧ amenityTags ["Restaurant"; "WiFi"; "Restroom"; "Parking"; "Shopping"]
        = ["Restaurant"; "WiFi"; "Restroom"; "+" +:+ pretty N +:+ " more"].
Proof.
  split.
  - destruct (amenityTags_limit (amenities downtownPlaza)) as (_ & Hfew & _).
    apply Hfew. simpl. lia.
  - destruct (amenityTags_limit
                ["Restaurant"; "WiFi"; "Restroom"; "Parking"; "Shopping"])
      as (_ & _ & Hmany).
    apply Hmany. simpl. lia.
Defined.

(** *** The access token and the map area *)

Definition placeholderToken : string := "your_mapbox_access_token_here".

(** [mapboxgl.accessToken = import.meta.env.VITE_MAPBOX_ACCESS_TOKEN || ''];
    the variable of the environment is [None] when it is not defined. *)
Definition accessToken (env : option string) : string := orElse env "".

Inductive MapOverlay :=
| YourLocation (lat lng : Q)
| GettingLocation.

(** The [map-overlay] block: present when the token is truthy and is not
    the placeholder.  Its text shows the coordinates rounded to four
    decimals; here the block carries the coordinates themselves. *)
Definition mapOverlay (token : string) (userLocation : option (Q * Q))
    : option MapOverlay :=
  if truthy token && negb (String.eqb token placeholderToken)
  then Some match userLocation with
            | Some (la, lo) => YourLocation la lo
            | None => GettingLocation
            end
  else None.

(** The [map-token-warning] block, with its three lines of text. *)
Definition mapTokenWarning (token : string) : option (list string) :=
  if negb (truthy token) || String.eqb token placeholderToken
  then Some [ "Mapbox Token Required";
              "Please add your Mapbox access token to the .env file";
              "Get one free at https://account.mapbox.com/" ]
  else None.

Definition tokenNotice : list string :=
  [ "Mapbox Token Required";
    "Please add your Mapbox access token to the .env file";
    "Get one free at https://account.mapbox.com/" ].

Lemma accessToken_cases env :
  accessToken env = "" ∧ (env = None ∨ env = Some "")
  ∨ env = Some (accessToken env) ∧ truthy (accessToken env) = true.
Proof. destruct env as [[|c t]|]; simpl; auto. Qed.

Lemma map_area_empty_token loc :
  mapTokenWarning "" = Some tokenNotice ∧ mapOverlay "" loc = None.
Proof. done. Qed.

Lemma map_area_token token loc :
  truthy token = true →
  token = placeholderToken
    ∧ mapTokenWarning token = Some tokenNotice ∧ mapOverlay token loc = None
  ∨ token ≠ placeholderToken
    ∧ mapTokenWarning token = None ∧ is_Some (mapOverlay token loc).
Proof.
  intros Ht. unfold mapTokenWarning, mapOverlay. rewrite Ht.
  destruct (String.eqb_spec token placeholderToken) as [Hp|Hp]; simpl.
  - by left.
  - right. eauto.
Qed.

(** The two blocks of the map area.  With the token of the environment
    absent, empty or equal to the placeholder, the render has the
    configuration notice and no overlay; with any other token it has the
    overlay and no notice. *)
Theorem token_notice (env : option string) (userLocation : option (Q * Q)) :
  let token := accessToken env in
  (is_Some (mapTokenWarning token)
     ↔ env = None ∨ env = Some "" ∨ env = Some placeholderToken)
  ∧ (is_Some (mapOverlay token userLocation)
     ↔ ¬ is_Some (mapTokenWarning token))
  ∧ (is_Some (mapTokenWarning token) →
     mapTokenWarning token = Some tokenNotice).
Proof.
  intros token.
  assert (Htoken : accessToken env = token) by done. clearbody token.
  destruct (accessToken_cases env) as [[Ht Henv] | [Henv Ht]];
    rewrite Htoken in *.
  - destruct (map_area_empty_token userLocation) as [Hw Ho].
    rewrite Ht, Hw, Ho. split; [|split].
    + split; [tauto | eauto].
    + split; [by intros [? ?] | intros []; eauto].
    + done.
  - destruct (map_area_token token userLocation Ht)
      as [(Hp & Hw & Ho) | (Hp & Hw & Ho)]; rewrite Hw.
    + rewrite Ho. split; [|split].
      * split; [intros _; right; right; congruence | eauto].
      * split; [by intros [? ?] | intros []; eauto].
      * done.
    + split; [|split].
      * split; [by intros [? ?]|].
        intros [H|[H|H]]; rewrite H in Henv; [done| |].
        -- injection Henv as <-. discriminate Ht.
        -- injection Henv as <-. by destruct Hp.
      * split; [by intros _ [? ?] | done].
      * by intros [? ?].
Qed.

Lemma token_notice_witness :
  mapTokenWarning (accessToken (Some placeholderToken)) = Some tokenNotice.
Proof.
  destruct (token_notice (Some placeholderToken) None) as (_ & _ & Htext).
  apply Htext. vm_compute. eauto.
Defined.

Example token_absent :
  is_Some (mapTokenWarning (accessToken None))
  ∧ mapOverlay (accessToken None) None = None.
Proof. split; [vm_compute; eauto | reflexivity]. Qed.

Example token_present :
  mapTokenWarning (accessToken (Some "test-token")) = None
  ∧ mapOverlay (accessToken (Some "test-token")) None = Some GettingLocation.
Proof. split; reflexivity. Qed.

(** *** The popup bridge [window.selectStation] *)

(** The conditions of the specification's error taxonomy, and the way a call
    ends.  The function registered on [window] returns nothing and raises
    nothing, so every call of it ends as [Completed]. *)
Inductive Condition := NotFound | InvalidState.

Inductive Completion :=
| Completed
| Reported (c : Condition).

Section PopupBridge.
Context {AppState : Type}.

(** The callback prop; its body belongs to the parent component, which
    keeps the active view and the selection. *)
Variable onStationSelect : ChargingStation → AppState → AppState.

Definition selectStation (stations : list ChargingStation)
    (stationId : string) (app : AppState) : Completion * AppState :=
  match List.find (λ s, String.eqb (id s) stationId) stations with
  | Some station => (Completed, onStationSelect station app)
  | None => (Completed, app)
  end.

Lemma find_unknown_id (stations : list ChargingStation) (stationId : string) :
  (∀ s, s ∈ stations → id s ≠ stationId) →
  List.find (λ s, String.eqb (id s) stationId) stations = None.
Proof.
  induction stations as [|s stations IH]; intros Hnone; simpl; [done|].
  destruct (String.eqb_spec (id s) stationId) as [Heq|_].
  - destruct (Hnone s); [left | exact Heq].
  - apply IH. intros s' Hs'. apply Hnone. by right.
Qed.

Lemma selectStation_completes stations stationId app :
  (selectStation stations stationId app).1 = Completed.
Proof. unfold selectStation. by destruct (List.find _ _). Qed.

Lemma selectStation_known stations stationId app station :
  List.find (λ s, String.eqb (id s) stationId) stations = Some station →
  selectStation stations stationId app
  = (Completed, onStationSelect station app).
Proof. unfold selectStation. by intros ->. Qed.

End PopupBridge.

(** C4, as the program has it.  For an id that no station of the list
    carries, the call does not reach the callback: the state of the parent
    (active view, selection) is left as it was, and the call ends normally,
    as every call does; no condition is reported. *)
Theorem selectStation_unknown_id {AppState : Type}
    (onStationSelect : ChargingStation → AppState → AppState)
    (stations : list ChargingStation) (stationId : string) (app : AppState) :
  (∀ s, s ∈ stations → id s ≠ stationId) →
  selectStation onStationSelect stations stationId app = (Completed, app).
Proof.
  intros Hnone. unfold selectStation. by rewrite find_unknown_id.
Qed.

Lemma not_in_mockStations (stationId : string) :
  stationId ≠ "1" → stationId ≠ "2" → stationId ≠ "3" →
  ∀ s, s ∈ mockStations → id s ≠ stationId.
Proof.
  intros H1 H2 H3 s Hs%list_elem_of_In. simpl in Hs.
  destruct Hs as [<-|[<-|[<-|[]]]]; simpl; congruence.
Qed.

Lemma selectStation_unknown_id_witness :
  selectStation (λ station _, Some (id station)) mockStations "99" None
  = (Completed, None).
Proof.
  apply (selectStation_unknown_id (λ station _, Some (id station))).
  by apply not_in_mockStations.
Defined.

(** C4 as stated fails: for the unknown id "99" the call ends like any
    other one; [NotFound] is not reported. *)
Lemma selectStation_reports_nothing :
  (∀ s, s ∈ mockStations → id s ≠ "99")
  ∧ (selectStation (λ station _, Some (id station)) mockStations "99" None).1
    ≠ Reported NotFound.
Proof. split; [by apply not_in_mockStations | discriminate]. Qed.

Example selectStation_two :
  selectStation (λ station _, Some (id station)) mockStations "2" None
  = (Completed, Some "2").
Proof. reflexivity. Qed.

(** *** The component: props, state, effects *)

(** [interface MapViewProps], without the callback [onStationSelect], which
    is the parameter of the section above.  The charging session reaches
    the view as the boolean [isCharging] and nothing else. *)
Record MapViewProps := {
  stations : list ChargingStation;
  isCharging : bool
}.

(** What is known of a marker put on the map: its colour, its position and
    the station its popup is filled from. *)
Record Marker := {
  color : string;
  lngLat : Q * Q;
  popup : ChargingStation
}.

Definition stationMarker (station : ChargingStation) : Marker :=
  {| color := markerColor (status station);
     lngLat := (lng station, lat station);
     popup := station |}.

(** The props of the last render, the state [searchQuery] and the refs
    [map] (whether the map object exists) and [markersRef]. *)
Record View := {
  props : MapViewProps;
  searchQuery : string;
  mapCurrent : bool;
  markersRef : list Marker
}.

(** The first effect creates the map once the container is rendered. *)
Definition initMapEffect (v : View) : View :=
  if negb (mapCurrent v)
  then {| props := props v; searchQuery := searchQuery v;
          mapCurrent := true; markersRef := markersRef v |}
  else v.

(** The effect with dependencies [[stations]]: with a map and a non-empty
    list, the old markers are removed and one marker per station of the
    prop [stations] is added, in order. *)
Definition stationMarkersEffect (v : View) : View :=
  if mapCurrent v && (0 <? length (stations (props v)))%nat
  then {| props := props v; searchQuery := searchQuery v;
          mapCurrent := mapCurrent v;
          markersRef := List.map stationMarker (stations (props v)) |}
  else v.

Definition mount (p : MapViewProps) : View :=
  stationMarkersEffect
    (initMapEffect
       {| props := p; searchQuery := ""; mapCurrent := false;
          markersRef := [] |}).

(** [onChange] of the search input: [setSearchQuery] and a new render with
    the same props, so no effect has a changed dependency. *)
Definition onSearchChange (q : string) (v : View) : View :=
  {| props := props v; searchQuery := q;
     mapCurrent := mapCurrent v; markersRef := markersRef v |}.

(** A render with new props from the parent; the marker effect runs again. *)
Definition receiveProps (p : MapViewProps) (v : View) : View :=
  stationMarkersEffect
    {| props := p; searchQuery := searchQuery v;
       mapCurrent := mapCurrent v; markersRef := markersRef v |}.

(** The station cards of the list. *)
Definition stationCards (v : View) : list ChargingStation :=
  filteredStations (stations (props v)) (searchQuery v).

(** The stations handed to the map for marker rendering. *)
Definition markerStations (v : View) : list ChargingStation :=
  List.map popup (markersRef v).

(** The view after the search text has gone through the given values. *)
Definition typed (queries : list string) (v : View) : View :=
  foldl (λ v q, onSearchChange q v) v queries.

(** The charging banner. *)
Record Banner := {
  headline : string;
  stats : string
}.

Definition chargingBanner (p : MapViewProps) : option Banner :=
  if isCharging p
  then Some {| headline := "Currently charging at Downtown Plaza";
               stats := "45 min remaining • 78% charged" |}
  else None.

(** *** Markers and search *)

Lemma markerStations_stationMarker (S : list ChargingStation) :
  List.map popup (List.map stationMarker S) = S.
Proof. induction S as [|s S IH]; simpl; [done | by rewrite IH]. Qed.

Lemma mount_markers (p : MapViewProps) :
  markersRef (mount p) = List.map stationMarker (stations p)
  ∧ props (mount p) = p ∧ searchQuery (mount p) = "".
Proof.
  unfold mount, initMapEffect, stationMarkersEffect. simpl.
  by destruct (stations p).
Qed.

Lemma last_cons_default {A : Type} (x d : A) (l : list A) :
  List.last (x :: l) d = List.last l x.
Proof.
  revert x d; induction l as [|y l IH]; intros x d; [done|].
  change (List.last (y :: l) d = List.last (y :: l) x). by rewrite !IH.
Qed.

(** Typing in the search box touches the state [searchQuery] only. *)
Lemma typed_frame (queries : list string) (v : View) :
  props (typed queries v) = props v
  ∧ markersRef (typed queries v) = markersRef v
  ∧ mapCurrent (typed queries v) = mapCurrent v
  ∧ searchQuery (typed queries v) = List.last queries (searchQuery v).
Proof.
  unfold typed. revert v.
  induction queries as [|q queries IH]; intros v; simpl; [done|].
  destruct (IH (onSearchChange q v)) as (Hp & Hm & Hc & Hq).
  rewrite Hp, Hm, Hc, Hq. repeat split.
  symmetry. apply last_cons_default.
Qed.

(** C7, as the program has it.  Whatever is typed in the search box, the
    markers on the map are those of the whole list of stations passed to
    the view, in order: they are set from the prop [stations] when the view
    mounts and a change of the search text does not touch them.  Only the
    list of station cards follows the search text. *)
Theorem markers_ignore_search (p : MapViewProps) (queries : list string) :
  let v := typed queries (mount p) in
  markersRef v = List.map stationMarker (stations p)
  ∧ markerStations v = stations p
  ∧ stationCards v = filteredStations (stations p) (List.last queries "").
Proof.
  intros v. subst v.
  destruct (typed_frame queries (mount p)) as (Hp & Hm & _ & Hq).
  destruct (mount_markers p) as (Hmm & Hmp & Hmq).
  unfold markerStations, stationCards.
  rewrite Hp, Hm, Hq, Hmm, Hmp, Hmq.
  by rewrite markerStations_stationMarker.
Qed.

(** C7 as stated fails: after typing "Downtown" the list shows one station
    and the map still carries the markers of all three. *)
Lemma markers_not_filtered :
  let v := typed ["Downtown"] (mount {| stations := mockStations; isCharging := false |}) in
  stationCards v = [downtownPlaza]
  ∧ markerStations v = mockStations
  ∧ markerStations v ≠ stationCards v.
Proof. split; [reflexivity|]. split; [reflexivity | discriminate]. Qed.

(** Markers follow the prop [stations], not the state. *)
Lemma receiveProps_markers (p : MapViewProps) (v : View) :
  mapCurrent v = true → stations p ≠ [] →
  markerStations (receiveProps p v) = stations p.
Proof.
  intros Hmap Hne. unfold receiveProps, stationMarkersEffect, markerStations.
  simpl. rewrite Hmap. destruct (stations p) as [|s S] eqn:E; [done|].
  simpl. by rewrite markerStations_stationMarker.
Qed.

(** *** The charging banner *)

Definition fixedBanner : Banner :=
  {| headline := "Currently charging at Downtown Plaza";
     stats := "45 min remaining • 78% charged" |}.

(** The banner depends on the flag alone.  With the flag set it shows a
    fixed text, naming Downtown Plaza with 45 minutes remaining and 78
    percent charged, whatever the stations; with the flag unset there is no
    banner. *)
Theorem chargingBanner_fixed (p : MapViewProps) :
  (isCharging p = true → chargingBanner p = Some fixedBanner)
  ∧ (isCharging p = false → chargingBanner p = None)
  ∧ (∀ p', isCharging p' = isCharging p → chargingBanner p' = chargingBanner p).
Proof.
  unfold chargingBanner. split; [|split].
  - by intros ->.
  - by intros ->.
  - by intros p' ->.
Qed.

Lemma chargingBanner_fixed_witness :
  chargingBanner {| stations := [airportTerminal]; isCharging := true |}
  = Some fixedBanner.
Proof.
  destruct (chargingBanner_fixed
              {| stations := [airportTerminal]; isCharging := true |})
    as (Hset & _).
  by apply Hset.
Defined.

(** C5 as stated fails: with Airport Terminal the only station, hence the
    selected one, the banner of an active session still names Downtown
    Plaza and does not name Airport Terminal. *)
Lemma chargingBanner_ignores_selection :
  ∃ b : Banner,
    chargingBanner {| stations := [airportTerminal]; isCharging := true |}
    = Some b
    ∧ includes (headline b) (name airportTerminal) = false
    ∧ includes (headline b) (name downtownPlaza) = true.
Proof. exists fixedBanner. repeat split. Qed.

(** *** More on the search filter *)

Section ListFilterCompose.
Context {A : Type} (f g : A → bool).

Lemma js_filter_comm (l : list A) :
  List.filter g (List.filter f l) = List.filter f (List.filter g l).
Proof.
  induction l as [|x l IH]; simpl; [done|].
  destruct (f x) eqn:Hf, (g x) eqn:Hg; simpl; rewrite ?Hf, ?Hg, IH; done.
Qed.

Lemma js_filter_absorb (l : list A) :
  (∀ x, g x = true → f x = true) →
  List.filter g (List.filter f l) = List.filter g l.
Proof.
  intros Himp. induction l as [|x l IH]; simpl; [done|].
  destruct (g x) eqn:Hg.
  - rewrite (Himp x Hg). simpl. by rewrite Hg, IH.
  - destruct (f x); simpl; rewrite ?Hg; exact IH.
Qed.

Lemma js_filter_NoDup_map {K : Type} (key : A → K) (l : list A) :
  NoDup (List.map key l) → NoDup (List.map key (List.filter f l)).
Proof.
  induction l as [|x l IH]; simpl; [done|].
  intros [Hx Hl]%NoDup_cons. destruct (f x); simpl; [|by apply IH].
  apply NoDup_cons. split; [|by apply IH].
  intros Hin. apply Hx.
  apply list_elem_of_In, in_map_iff in Hin as (y & Hy & Hin).
  apply list_elem_of_In, in_map_iff. exists y. split; [done|].
  by apply filter_In in Hin as [Hin _].
Qed.
End ListFilterCompose.



(** X2. Searches compose: filtering a result again by a second query gives
    the same list whichever query comes first, and filtering a result again
    by its own query changes nothing. *)
Theorem filteredStations_compose (S : list ChargingStation) (q q' : string) :
  filteredStations (filteredStations S q) q'
  = filteredStations (filteredStations S q') q
  ∧ filteredStations (filteredStations S q) q = filteredStations S q.
Proof.
  unfold filteredStations. split; [apply js_filter_comm|].
  by apply js_filter_absorb.
Qed.

(** X4. The station cards are keyed by station id.  When the ids of the
    stations passed to the view are pairwise distinct, so are the keys of
    the cards of every search result. *)
Theorem filteredStations_keys (S : list ChargingStation) (q : string) :
  NoDup (List.map id S) → NoDup (List.map id (filteredStations S q)).
Proof. apply js_filter_NoDup_map. Qed.

Lemma filteredStations_keys_witness :
  NoDup (List.map id (filteredStations mockStations "miami")).
Proof.
  apply (filteredStations_keys mockStations "miami").
  apply (bool_decide_unpack (NoDup (List.map id mockStations))).
  by vm_compute.
Defined.

(** *** The status badge *)



(** *** The amenity tags, counted *)

(** X6. A station card never carries more than four amenity tags, and it
    carries none exactly when the station has no amenities. *)
Theorem amenityTags_bounded (amenities : list string) :
  (length (amenityTags amenities) ≤ 4)%nat
  ∧ (amenityTags amenities = [] ↔ amenities = []).
Proof.
  unfold amenityTags. split.
  - rewrite length_app, length_take.
    destruct (3 <? length amenities)%nat; simpl length; lia.
  - destruct amenities as [|a [|b [|c [|d l]]]]; simpl; split; done.
Qed.

(** *** [window.selectStation], for known ids *)

Lemma find_unique_id (stations : list ChargingStation) (station : ChargingStation) :
  station ∈ stations → NoDup (List.map id stations) →
  List.find (λ s, String.eqb (id s) (id station)) stations = Some station.
Proof.
  induction stations as [|s stations IH]; simpl.
  - by intros ?%elem_of_nil.
  - intros Hin [Hs Hnd]%NoDup_cons.
    destruct (String.eqb_spec (id s) (id station)) as [Heq|Hne].
    + apply elem_of_cons in Hin as [->|Hin]; [done|].
      destruct Hs. rewrite Heq.
      apply list_elem_of_In, in_map. by apply list_elem_of_In.
    + apply elem_of_cons in Hin as [->|Hin]; [done|]. by apply IH.
Qed.

(** X7. Looking a station up by its id.  When the ids of the stations are
    pairwise distinct, a call of [window.selectStation] with the id of a
    station of the list hands that very station to [onStationSelect],
    once. *)
Theorem selectStation_round_trip {AppState : Type}
    (onStationSelect : ChargingStation → AppState → AppState)
    (stations : list ChargingStation) (station : ChargingStation)
    (app : AppState) :
  station ∈ stations → NoDup (List.map id stations) →
  selectStation onStationSelect stations (id station) app
  = (Completed, onStationSelect station app).
Proof.
  intros Hin Hnd. apply selectStation_known. by apply find_unique_id.
Qed.

Lemma selectStation_round_trip_witness :
  selectStation (λ station picked, station :: picked) mockStations
    (id beachResort) []
  = (Completed, [beachResort]).
Proof.
  apply (selectStation_round_trip (λ station picked, station :: picked)).
  - apply list_elem_of_In. simpl. tauto.
  - apply (bool_decide_unpack (NoDup (List.map id mockStations))).
    by vm_compute.
Defined.

(** *** Markers over the life of the view *)

(** X8. A render with an empty list of stations does not clear the map:
    the guard of the marker effect skips the removal as well, and the
    markers of the previous list stay.  A render with a non-empty list
    replaces the markers by those of that list. *)
Theorem receiveProps_empty_keeps_markers (p : MapViewProps) (v : View) :
  (stations p = [] → markersRef (receiveProps p v) = markersRef v)
  ∧ (stations p ≠ [] → mapCurrent v = true →
     markerStations (receiveProps p v) = stations p).
Proof.
  split.
  - intros Hnil. unfold receiveProps, stationMarkersEffect. simpl.
    rewrite Hnil. simpl. by rewrite andb_false_r.
  - intros Hne Hmap. by apply receiveProps_markers.
Qed.

Lemma receiveProps_empty_keeps_markers_witness :
  markerStations
    (receiveProps {| stations := []; isCharging := false |}
       (mount {| stations := mockStations; isCharging := false |}))
  = mockStations.
Proof.
  destruct (receiveProps_empty_keeps_markers
              {| stations := []; isCharging := false |}
              (mount {| stations := mockStations; isCharging := false |}))
    as [Hkeep _].
  unfold markerStations. by rewrite Hkeep.
Defined.

(** What happens to a mounted view: the search text changes, or the parent
    renders it with new props. *)
Inductive ViewEvent :=
| SearchChange (q : string)
| NewProps (p : MapViewProps).

Definition viewStep (v : View) (e : ViewEvent) : View :=
  match e with
  | SearchChange q => onSearchChange q v
  | NewProps p => receiveProps p v
  end.

Definition runView (events : list ViewEvent) (v : View) : View :=
  foldl viewStep v events.

(** The map exists, every marker is the marker of its station, and the
    markers are those of the current list whenever that list is not empty. *)
Definition markersInSync (v : View) : Prop :=
  mapCurrent v = true
  ∧ markersRef v = List.map stationMarker (markerStations v)
  ∧ (stations (props v) ≠ [] → markerStations v = stations (props v)).

Lemma markersInSync_mount (p : MapViewProps) : markersInSync (mount p).
Proof.
  destruct (mount_markers p) as (Hm & Hp & _).
  unfold markersInSync, markerStations. rewrite Hm, Hp.
  rewrite markerStations_stationMarker. repeat split.
  unfold mount, initMapEffect, stationMarkersEffect. simpl.
  by destruct (stations p).
Qed.

Lemma markersInSync_step (v : View) (e : ViewEvent) :
  markersInSync v → markersInSync (viewStep v e).
Proof.
  intros (Hmap & Hwf & Hsync). destruct e as [q|p]; [done|].
  unfold markersInSync, markerStations, viewStep, receiveProps,
    stationMarkersEffect in *. simpl. rewrite Hmap. simpl.
  destruct (stations p) as [|s S] eqn:E; simpl.
  - rewrite E. by repeat split.
  - rewrite E, markerStations_stationMarker. by repeat split.
Qed.

Lemma markersInSync_run (events : list ViewEvent) (v : View) :
  markersInSync v → markersInSync (runView events v).
Proof.
  unfold runView. revert v.
  induction events as [|e events IH]; intros v Hv; simpl; [done|].
  by apply IH, markersInSync_step.
Qed.

(** X9. Through every sequence of search changes and renders with new
    props, each marker on the map has the colour and the position of the
    station of its popup, the markers are those of the current list of
    stations whenever that list is not empty, and every station card of the
    list has its marker on the map, in the same order. *)
Theorem markers_in_sync (p : MapViewProps) (events : list ViewEvent) :
  let v := runView events (mount p) in
  markersRef v = List.map stationMarker (markerStations v)
  ∧ (stations (props v) ≠ [] → markerStations v = stations (props v))
  ∧ stationCards v `sublist_of` markerStations v.
Proof.
  intros v.
  destruct (markersInSync_run events (mount p) (markersInSync_mount p))
    as (_ & Hwf & Hsync).
  fold v in Hwf, Hsync. split; [exact Hwf|]. split; [exact Hsync|].
  unfold stationCards, filteredStations.
  destruct (stations (props v)) as [|s S] eqn:E.
  - apply sublist_nil_l.
  - rewrite Hsync by done. apply js_filter_sublist.
Qed.

Lemma markers_in_sync_witness :
  let v := runView [SearchChange "beach";
                    NewProps {| stations := [beachResort; airportTerminal];
                                isCharging := true |}]
             (mount {| stations := mockStations; isCharging := false |}) in
  markerStations v = [beachResort; airportTerminal]
  ∧ stationCards v = [beachResort].
Proof.
  intros v.
  destruct (markers_in_sync {| stations := mockStations; isCharging := false |}
              [SearchChange "beach";
               NewProps {| stations := [beachResort; airportTerminal];
                           isCharging := true |}])
    as (_ & Hsync & _).
  split; [by apply Hsync | reflexivity].
Defined.

(** *** Geolocation, the camera and the station cards *)

(** The camera of the map: its centre, as longitude and latitude, and its
    zoom. *)
Record Camera := {
  center : Q * Q;
  zoom : Z
}.

(** The camera the map is created with. *)
Definition initialCamera : Camera :=
  {| center := (-80.1918, 25.7617)%Q; zoom := 11 |}.

(** The marker of the user's location. *)
Record UserMarker := {
  userColor : string;
  userLngLat : Q * Q
}.

(** The view with the rest of its state: whether it is mounted, the state
    [userLocation] (latitude, longitude), the camera of the map, the ref
    [userMarkerRef], and whether a [getCurrentPosition] request is waiting
    for its answer. *)
Record Screen := {
  view : View;
  viewMounted : bool;
  userLocation : option (Q * Q);
  camera : Camera;
  userMarkerRef : option UserMarker;
  geoPending : bool
}.

(** The first render and its effects; [geolocation] tells whether
    [navigator.geolocation] exists. *)
Definition mountScreen (p : MapViewProps) (geolocation : bool) : Screen :=
  {| view := mount p; viewMounted := true; userLocation := None;
     camera := initialCamera; userMarkerRef := None;
     geoPending := geolocation |}.

(** The effect with dependencies [[userLocation]]. *)
Definition userMarkerEffect (sc : Screen) : Screen :=
  match userLocation sc with
  | Some (la, lo) =>
      if mapCurrent (view sc)
      then {| view := view sc; viewMounted := viewMounted sc;
              userLocation := userLocation sc; camera := camera sc;
              userMarkerRef :=
                Some {| userColor := "#3B82F6"; userLngLat := (lo, la) |};
              geoPending := geoPending sc |}
      else sc
  | None => sc
  end.

(** [setUserLocation], the render it causes and the effect of that render;
    dropped once the view is removed. *)
Definition setUserLocation (location : Q * Q) (sc : Screen) : Screen :=
  if viewMounted sc
  then userMarkerEffect
         {| view := view sc; viewMounted := viewMounted sc;
            userLocation := Some location; camera := camera sc;
            userMarkerRef := userMarkerRef sc; geoPending := geoPending sc |}
  else sc.

(** [if (map.current) map.current.flyTo ({ center, zoom })]. *)
Definition flyTo (c : Q * Q) (z : Z) (sc : Screen) : Screen :=
  if mapCurrent (view sc)
  then {| view := view sc; viewMounted := viewMounted sc;
          userLocation := userLocation sc;
          camera := {| center := c; zoom := z |};
          userMarkerRef := userMarkerRef sc; geoPending := geoPending sc |}
  else sc.

(** The two callbacks given to [getCurrentPosition]. *)
Definition onPosition (la lo : Q) (sc : Screen) : Screen :=
  flyTo (lo, la) 13 (setUserLocation (la, lo) sc).

Definition onPositionError (sc : Screen) : Screen :=
  setUserLocation (25.7617, -80.1918)%Q sc.

Inductive GeoAnswer :=
| Position (la lo : Q)
| PositionError.

(** The answer to the pending request, if one is pending. *)
Definition geoAnswer (a : GeoAnswer) (sc : Screen) : Screen :=
  if geoPending sc
  then let sc' :=
         {| view := view sc; viewMounted := viewMounted sc;
            userLocation := userLocation sc; camera := camera sc;
            userMarkerRef := userMarkerRef sc; geoPending := false |} in
       match a with
       | Position la lo => onPosition la lo sc'
       | PositionError => onPositionError sc'
       end
  else sc.

(** The cleanup of the first effect removes the map. *)
Definition unmountScreen (sc : Screen) : Screen :=
  {| view := {| props := props (view sc);
                searchQuery := searchQuery (view sc);
                mapCurrent := false;
                markersRef := markersRef (view sc) |};
     viewMounted := false; userLocation := userLocation sc;
     camera := camera sc; userMarkerRef := userMarkerRef sc;
     geoPending := geoPending sc |}.

Section StationCards.
Context {AppState : Type}.
Variable onStationSelect : ChargingStation → AppState → AppState.

(** [onClick] of a station card. *)
Definition handleStationCardClick (station : ChargingStation)
    (sc : Screen) (app : AppState) : Screen * AppState :=
  (flyTo (lng station, lat station) 15 sc, onStationSelect station app).

End StationCards.

Example geo_denied :
  let sc := geoAnswer PositionError (mountScreen {| stations := mockStations; isCharging := false |} true) in
  userLocation sc = Some (25.7617, -80.1918)%Q ∧ zoom (camera sc) = 11%Z.
Proof. split; reflexivity. Qed.

(** X10. When the answer to the location request arrives at a mounted view
    with a map, the state [userLocation] is set and the blue user marker
    stands at that location, taken as longitude then latitude.  With a
    position the camera flies there, at zoom 13.  With a refusal the
    location is the fixed default, which is the centre the map is created
    with, and the camera is left alone.  The station markers and the
    search are not touched. *)
Theorem geolocation_answer (sc : Screen) (a : GeoAnswer) :
  viewMounted sc = true → mapCurrent (view sc) = true → geoPending sc = true →
  let sc' := geoAnswer a sc in
  view sc' = view sc
  ∧ ∃ la lo : Q,
      userLocation sc' = Some (la, lo)
      ∧ userMarkerRef sc' = Some {| userColor := "#3B82F6"; userLngLat := (lo, la) |}
      ∧ match a with
        | Position la' lo' =>
            (la, lo) = (la', lo')
            ∧ camera sc' = {| center := (lo, la); zoom := 13 |}
        | PositionError =>
            (lo, la) = center initialCamera ∧ camera sc' = camera sc
        end.
Proof.
  intros Hm Hmap Hgeo sc'. subst sc'.
  unfold geoAnswer. rewrite Hgeo.
  destruct a as [la lo|];
    unfold onPosition, onPositionError, flyTo, setUserLocation,
      userMarkerEffect; simpl; rewrite Hm; simpl; rewrite Hmap; simpl;
    rewrite ?Hmap; simpl.
  - split; [done|]. by exists la, lo.
  - split; [done|]. by exists 25.7617%Q, (-80.1918)%Q.
Qed.

Lemma geolocation_answer_witness :
  let sc := geoAnswer PositionError
              (mountScreen {| stations := mockStations; isCharging := false |} true) in
  ∃ m : UserMarker,
    userMarkerRef sc = Some m ∧ userLngLat m = center (camera sc).
Proof.
  intros sc.
  destruct (geolocation_answer
              (mountScreen {| stations := mockStations; isCharging := false |} true)
              PositionError eq_refl eq_refl eq_refl)
    as (_ & la & lo & _ & Hmarker & Hcentre & Hcamera).
  fold sc in Hmarker, Hcamera. exists {| userColor := "#3B82F6"; userLngLat := (lo, la) |}.
  split; [exact Hmarker|]. rewrite Hcamera. exact Hcentre.
Defined.

(** X11. A click on a station card of a mounted view hands that station to
    [onStationSelect] and flies the camera, at zoom 15, to the position of
    the marker of that station, which is on the map; search, markers and
    user location are as before. *)
Theorem card_click_flies_to_marker {AppState : Type}
    (onStationSelect : ChargingStation → AppState → AppState)
    (station : ChargingStation) (sc : Screen) (app : AppState) :
  markersInSync (view sc) → station ∈ stationCards (view sc) →
  let r := handleStationCardClick onStationSelect station sc app in
  r.2 = onStationSelect station app
  ∧ camera r.1 = {| center := lngLat (stationMarker station); zoom := 15 |}
  ∧ stationMarker station ∈ markersRef (view r.1)
  ∧ view r.1 = view sc
  ∧ userLocation r.1 = userLocation sc
  ∧ userMarkerRef r.1 = userMarkerRef sc.
Proof.
  intros (Hmap & Hwf & Hsync) Hcard r. subst r.
  unfold handleStationCardClick, flyTo. rewrite Hmap. simpl.
  repeat split.
  unfold stationCards, filteredStations in Hcard.
  apply js_filter_elem_of in Hcard as [Hin _].
  assert (Hne : stations (props (view sc)) ≠ []).
  { intros E. rewrite E in Hin. by apply elem_of_nil in Hin. }
  rewrite Hwf, (Hsync Hne).
  apply list_elem_of_In, in_map. by apply list_elem_of_In.
Qed.

Lemma card_click_flies_to_marker_witness :
  let r := handleStationCardClick (λ station picked, station :: picked)
             airportTerminal
             (mountScreen {| stations := mockStations; isCharging := false |} true)
             [] in
  r.2 = [airportTerminal]
  ∧ camera r.1 = {| center := (-80.2870, 25.7959)%Q; zoom := 15 |}.
Proof.
  intros r.
  destruct (card_click_flies_to_marker (λ station picked, station :: picked)
              airportTerminal
              (mountScreen {| stations := mockStations; isCharging := false |} true)
              [])
    as (Hcall & Hcamera & _).
  - apply markersInSync_mount.
  - apply list_elem_of_In. simpl. tauto.
  - split; [exact Hcall | exact Hcamera].
Defined.

(** X12. An answer to the location request that arrives after the view was
    removed is without effect: the state update is dropped and, the map
    being gone, nothing flies and no marker is made. *)
Theorem geolocation_after_unmount (sc : Screen) (a : GeoAnswer) :
  let sc' := geoAnswer a (unmountScreen sc) in
  view sc' = view (unmountScreen sc)
  ∧ userLocation sc' = userLocation sc
  ∧ camera sc' = camera sc
  ∧ userMarkerRef sc' = userMarkerRef sc
  ∧ viewMounted sc' = false.
Proof.
  intros sc'. subst sc'. unfold geoAnswer, unmountScreen. simpl.
  destruct (geoPending sc), a; by simpl.
Qed.

(** *** The construction of the map *)

(** What becomes of the map area when the view is mounted.  The first
    render puts the warning block or the overlay block in place; the first
    effect then calls [new mapboxgl.Map] with the access token set, outside
    any [try].  [newMap] tells for which tokens the constructor of the
    mapping library returns; when it throws, the exception leaves the
    effect, nothing in the view catches it, and the rendered tree is
    removed. *)
Inductive MapArea :=
| Shown (warning : option (list string)) (overlay : option MapOverlay)
| Crashed.

Definition mountMapArea (newMap : string → bool) (env : option string)
    (userLocation : option (Q * Q)) : MapArea :=
  let token := accessToken env in
  if newMap token
  then Shown (mapTokenWarning token) (mapOverlay token userLocation)
  else Crashed.

(** The check of the mapping library when it resolves the style of the
    map: a token is required. *)
Definition tokenRequired (token : string) : bool := truthy token.

(** C8, evaluated on the program.  The map is constructed whatever the
    token is.  Where the constructor returns, the map area shows the
    configuration notice exactly for an absent, empty or placeholder token
    and the overlay otherwise.  Where the constructor throws on the empty
    token, an absent or empty token of the environment ends in a crash, not
    in the notice; the placeholder, which is not empty, still gets the
    notice. *)
Theorem map_constructed_unguarded (newMap : string → bool)
    (env : option string) (userLocation : option (Q * Q)) :
  (newMap (accessToken env) = true →
     mountMapArea newMap env userLocation
     = Shown (mapTokenWarning (accessToken env))
         (mapOverlay (accessToken env) userLocation))
  ∧ (newMap "" = false →
       mountMapArea newMap None userLocation = Crashed
       ∧ mountMapArea newMap (Some "") userLocation = Crashed)
  ∧ (newMap placeholderToken = true →
       mountMapArea newMap (Some placeholderToken) userLocation
       = Shown (Some tokenNotice) None).
Proof.
  unfold mountMapArea. split; [|split].
  - by intros ->.
  - simpl. by intros ->.
  - simpl. intros ->.
    by destruct (map_area_token placeholderToken userLocation eq_refl)
      as [(_ & -> & ->) | (Hne & _)].
Qed.

Lemma map_constructed_unguarded_witness :
  mountMapArea tokenRequired None None = Crashed
  ∧ mountMapArea tokenRequired (Some placeholderToken) None
    = Shown (Some tokenNotice) None.
Proof.
  destruct (map_constructed_unguarded tokenRequired None None)
    as (_ & Hempty & Hplaceholder).
  split; [by apply Hempty | by apply Hplaceholder].
Defined.

End MapView.

(** ** [QRScanner.tsx]: the scanner *)

Module QRScanner.
Local Open Scope list_scope.

(** Calls of the props [onScan] and [onBack]. *)
Inductive PropCall :=
| OnScan (result : string)
| OnBack.

(** The component together with the part of the browser it talks to: the
    state [isScanning] and [error], the ref [intervalRef], the intervals
    registered with [setInterval] and not cleared since, the handle the
    next [setInterval] returns, the images created by a tick whose [onload]
    has not run yet, and the calls of the props so far, oldest first.
    [webcamRef.current] is not kept: the [Webcam] element is rendered
    exactly while the component is mounted and [isScanning] holds, and the
    ref is null otherwise. *)
Record Scanner := {
  mounted : bool;
  isScanning : bool;
  error : option string;
  intervalRef : option nat;
  intervals : gset nat;
  nextHandle : nat;
  loading : nat;
  calls : list PropCall
}.

(** Handles of timers are positive. *)
Definition initial : Scanner :=
  {| mounted := true; isScanning := false; error := None;
     intervalRef := None; intervals := ∅; nextHandle := 1;
     loading := 0; calls := [] |}.

Definition webcamRendered (s : Scanner) : bool := mounted s && isScanning s.

(** [setIsScanning b]; a state update of an unmounted component is dropped. *)
Definition setIsScanning (b : bool) (s : Scanner) : Scanner :=
  if mounted s
  then {| mounted := mounted s; isScanning := b; error := error s;
          intervalRef := intervalRef s; intervals := intervals s;
          nextHandle := nextHandle s; loading := loading s;
          calls := calls s |}
  else s.

Definition setError (e : option string) (s : Scanner) : Scanner :=
  if mounted s
  then {| mounted := mounted s; isScanning := isScanning s; error := e;
          intervalRef := intervalRef s; intervals := intervals s;
          nextHandle := nextHandle s; loading := loading s;
          calls := calls s |}
  else s.

(** [intervalRef.current = setInterval (..., 300)]. *)
Definition setIntervalRef (s : Scanner) : Scanner :=
  {| mounted := mounted s; isScanning := isScanning s; error := error s;
     intervalRef := Some (nextHandle s);
     intervals := {[nextHandle s]} ∪ intervals s;
     nextHandle := S (nextHandle s); loading := loading s;
     calls := calls s |}.

(** [if (intervalRef.current) clearInterval (intervalRef.current)]; the
    handle [0] would be falsy. *)
Definition clearIntervalRef (s : Scanner) : Scanner :=
  match intervalRef s with
  | Some h =>
      if (h =? 0)%nat then s
      else {| mounted := mounted s; isScanning := isScanning s;
              error := error s; intervalRef := intervalRef s;
              intervals := intervals s ∖ {[h]};
              nextHandle := nextHandle s; loading := loading s;
              calls := calls s |}
  | None => s
  end.

Definition call (c : PropCall) (s : Scanner) : Scanner :=
  {| mounted := mounted s; isScanning := isScanning s; error := error s;
     intervalRef := intervalRef s; intervals := intervals s;
     nextHandle := nextHandle s; loading := loading s;
     calls := calls s ++ [c] |}.

Definition setLoading (n : nat) (s : Scanner) : Scanner :=
  {| mounted := mounted s; isScanning := isScanning s; error := error s;
     intervalRef := intervalRef s; intervals := intervals s;
     nextHandle := nextHandle s; loading := n; calls := calls s |}.

Definition startScanning (s : Scanner) : Scanner :=
  setIntervalRef (setError None (setIsScanning true s)).

Definition stopScanning (s : Scanner) : Scanner :=
  clearIntervalRef (setIsScanning false s).

Definition handleManualEntry (s : Scanner) : Scanner :=
  call (OnScan "EV-STATION-001-PORT-A") s.

Definition onUserMediaError (s : Scanner) : Scanner :=
  setIsScanning false
    (setError (Some "Camera access denied. Please enable camera permissions.") s).

(** The body of the interval callback: with a webcam and a screenshot, an
    image is created and its source set; its [onload] runs later. *)
Definition tick (screenshot : bool) (s : Scanner) : Scanner :=
  if webcamRendered s && screenshot then setLoading (S (loading s)) s else s.

(** [img.onload]: with a drawing context and a code found by [jsQR], the
    scan ends and the result is handed to [onScan]. *)
Definition onload (context : bool) (code : option string) (s : Scanner) : Scanner :=
  if context then
    match code with
    | Some data => call (OnScan data) (clearIntervalRef (setIsScanning false s))
    | None => s
    end
  else s.

(** The parent removes the component; the component has no cleanup. *)
Definition unmount (s : Scanner) : Scanner :=
  {| mounted := false; isScanning := isScanning s; error := error s;
     intervalRef := intervalRef s; intervals := intervals s;
     nextHandle := nextHandle s; loading := loading s; calls := calls s |}.

(** What can happen to the component. *)
Inductive Event :=
| ClickStart
| ClickStop
| ClickManual
| ClickBack
| UserMediaError
| Tick (handle : nat) (screenshot : bool)
| ImageLoaded (context : bool) (code : option string)
| Unmount.

(** A button can be clicked while it is rendered, the camera can fail
    while the webcam is rendered, an interval fires while it is registered,
    an image loads while one is pending. *)
Definition enabled (e : Event) (s : Scanner) : bool :=
  match e with
  | ClickStart => mounted s && negb (isScanning s)
  | ClickStop => mounted s && isScanning s
  | ClickManual | ClickBack | Unmount => mounted s
  | UserMediaError => webcamRendered s
  | Tick h _ => bool_decide (h ∈ intervals s)
  | ImageLoaded _ _ => (0 <? loading s)%nat
  end.

Definition react (e : Event) (s : Scanner) : Scanner :=
  match e with
  | ClickStart => startScanning s
  | ClickStop => stopScanning s
  | ClickManual => handleManualEntry s
  | ClickBack => call OnBack s
  | UserMediaError => onUserMediaError s
  | Tick _ screenshot => tick screenshot s
  | ImageLoaded context code => onload context code (setLoading (pred (loading s)) s)
  | Unmount => unmount s
  end.

Definition step (s : Scanner) (e : Event) : Scanner :=
  if enabled e s then react e s else s.

Definition run (events : list Event) (s : Scanner) : Scanner :=
  foldl step s events.

(** *** Where the poll loop is cancelled, and where it is not *)

(** The two paths that cancel: [stopScanning] and a decoded code. *)
Lemma clearIntervalRef_cancels (s : Scanner) (h : nat) :
  intervalRef s = Some h → h ≠ 0%nat →
  (h ∉ intervals (clearIntervalRef s)) ∧ calls (clearIntervalRef s) = calls s.
Proof.
  intros Href Hh%Nat.eqb_neq. unfold clearIntervalRef.
  rewrite Href, Hh. simpl. split; [|done].
  apply not_elem_of_difference. right. by apply elem_of_singleton.
Qed.

Lemma setIsScanning_frame (b : bool) (s : Scanner) :
  intervalRef (setIsScanning b s) = intervalRef s
  ∧ intervals (setIsScanning b s) = intervals s
  ∧ calls (setIsScanning b s) = calls s
  ∧ mounted (setIsScanning b s) = mounted s.
Proof. unfold setIsScanning. by destruct (mounted s) eqn:E. Qed.

Lemma setError_frame (e : option string) (s : Scanner) :
  intervalRef (setError e s) = intervalRef s
  ∧ intervals (setError e s) = intervals s
  ∧ calls (setError e s) = calls s
  ∧ mounted (setError e s) = mounted s.
Proof. unfold setError. by destruct (mounted s) eqn:E. Qed.

Lemma stopScanning_cancels (s : Scanner) (h : nat) :
  intervalRef s = Some h → h ≠ 0%nat → h ∉ intervals (stopScanning s).
Proof.
  intros Href Hh. unfold stopScanning.
  apply clearIntervalRef_cancels; [|done].
  destruct (setIsScanning_frame false s) as (-> & _). done.
Qed.

Lemma onload_cancels (s : Scanner) (h : nat) (data : string) :
  intervalRef s = Some h → h ≠ 0%nat →
  (h ∉ intervals (onload true (Some data) s))
  ∧ calls (onload true (Some data) s) = (calls s ++ [OnScan data]).
Proof.
  intros Href Hh. unfold onload, call. simpl.
  destruct (setIsScanning_frame false s) as (Hr & _ & Hc & _).
  destruct (clearIntervalRef_cancels (setIsScanning false s) h) as [Hi Hk];
    [congruence | done |].
  split; [done | by rewrite Hk, Hc].
Qed.

(** The two paths that do not: a camera error and the removal of the
    component leave every registered interval in place. *)
Lemma onUserMediaError_keeps_intervals (s : Scanner) :
  intervals (onUserMediaError s) = intervals s.
Proof.
  unfold onUserMediaError.
  destruct (setIsScanning_frame false
              (setError (Some "Camera access denied. Please enable camera permissions.") s))
    as (_ & -> & _).
  by destruct (setError_frame
                 (Some "Camera access denied. Please enable camera permissions.") s)
    as (_ & -> & _).
Qed.

Lemma unmount_keeps_intervals (s : Scanner) :
  intervals (unmount s) = intervals s ∧ loading (unmount s) = loading s.
Proof. done. Qed.

Lemma clearIntervalRef_calls (s : Scanner) :
  calls (clearIntervalRef s) = calls s.
Proof.
  unfold clearIntervalRef. destruct (intervalRef s) as [h|]; [|done].
  by destruct (h =? 0)%nat.
Qed.

(** A pending image delivers its code wherever the component stands. *)
Lemma late_image_delivers (s : Scanner) (data : string) :
  (0 < loading s)%nat →
  calls (step s (ImageLoaded true (Some data))) = (calls s ++ [OnScan data]).
Proof.
  intros Hl%Nat.ltb_lt. unfold step, enabled. rewrite Hl.
  unfold react, onload, call. simpl.
  rewrite clearIntervalRef_calls.
  by destruct (setIsScanning_frame false (setLoading (pred (loading s)) s))
    as (_ & _ & -> & _).
Qed.

(** C3, evaluated on the program.  After Start Scanning and a camera error
    the view has left the scanning state and interval 1 is still
    registered; the same after Start Scanning, Back and the removal of the
    component; and a frame taken by a tick before Back is decoded after the
    removal, its code being handed to [onScan] then.  A stop in between
    does cancel the interval. *)
Theorem scan_loop_survives_exit :
  (let s := run [ClickStart; UserMediaError] initial in
   webcamRendered s = false ∧ intervals s = {[1%nat]})
  ∧ (let s := run [ClickStart; ClickBack; Unmount] initial in
     webcamRendered s = false ∧ intervals s = {[1%nat]}
     ∧ enabled (Tick 1 true) s = true)
  ∧ (let s := run [ClickStart; Tick 1 true; ClickBack; Unmount] initial in
     webcamRendered s = false
     ∧ calls s = [OnBack]
     ∧ calls (step s (ImageLoaded true (Some "EV-1"))) = [OnBack; OnScan "EV-1"])
  ∧ (let s := run [ClickStart; ClickStop] initial in
     webcamRendered s = false ∧ intervals s = ∅).
Proof. vm_compute. repeat split. Qed.

(** *** Manual entry *)

(** C10. A click on Enter Code Manually hands the constant
    EV-STATION-001-PORT-A to [onScan], once, whether or not the scan loop
    runs; the click carries no input, and the state of the scanner and its
    intervals are as before. *)
Theorem manual_entry_constant (s : Scanner) :
  mounted s = true →
  calls (step s ClickManual) = (calls s ++ [OnScan "EV-STATION-001-PORT-A"])
  ∧ isScanning (step s ClickManual) = isScanning s
  ∧ error (step s ClickManual) = error s
  ∧ intervalRef (step s ClickManual) = intervalRef s
  ∧ intervals (step s ClickManual) = intervals s
  ∧ loading (step s ClickManual) = loading s.
Proof. intros Hm. unfold step, enabled. by rewrite Hm. Qed.

Lemma manual_entry_constant_witness :
  calls (step initial ClickManual) = [OnScan "EV-STATION-001-PORT-A"]
  ∧ calls (step (run [ClickStart; Tick 1 false] initial) ClickManual)
    = [OnScan "EV-STATION-001-PORT-A"]
  ∧ isScanning (step (run [ClickStart; Tick 1 false] initial) ClickManual)
    = true.
Proof.
  destruct (manual_entry_constant initial eq_refl) as (Hidle & _).
  destruct (manual_entry_constant (run [ClickStart; Tick 1 false] initial)
              eq_refl) as (Hcalls & Hscan & _).
  split; [exact Hidle|]. split; [exact Hcalls | exact Hscan].
Defined.

(** *** Invariants of the scanner *)

Definition cameraError : string :=
  "Camera access denied. Please enable camera permissions.".

(** Handles in use are positive and older than the next one, a scanning
    component holds a handle, and an error goes with the idle state. *)
Record wf (s : Scanner) : Prop := {
  wf_next : (1 ≤ nextHandle s)%nat;
  wf_intervals : ∀ h, h ∈ intervals s → (1 ≤ h < nextHandle s)%nat;
  wf_ref : ∀ h, intervalRef s = Some h → (1 ≤ h < nextHandle s)%nat;
  wf_scanning : isScanning s = true → is_Some (intervalRef s);
  wf_error : ∀ m, error s = Some m → m = cameraError ∧ isScanning s = false
}.

Lemma wf_initial : wf initial.
Proof. split; simpl; done. Qed.

Lemma wf_step (s : Scanner) (e : Event) : wf s → wf (step s e).
Proof.
  intros Hwf. unfold step. destruct (enabled e s) eqn:Hen; [|done].
  destruct Hwf as [Hn Hi Hr Hs He].
  destruct s as [m sc er ref ivs nx ld cs]; simpl in *.
  destruct e; simpl in *;
    unfold startScanning, stopScanning, handleManualEntry,
      onUserMediaError, tick, onload, unmount, call, clearIntervalRef,
      setIntervalRef, setIsScanning, setError, setLoading, webcamRendered;
    simpl.
  all: repeat match goal with
         | |- context [if ?b then _ else _] => destruct b eqn:?; simpl in *
         | |- context [match ?o with Some _ => _ | None => _ end] =>
             destruct o eqn:?; simpl in *
         end.
  all: split; simpl; intros; simplify_eq; try done; try lia; eauto.
  all: try (match goal with
            | H : _ ∈ {[_]} ∪ _ |- _ =>
                apply elem_of_union in H as [->%elem_of_singleton | H];
                [lia | specialize (Hi _ H); lia]
            | H : _ ∈ _ ∖ _ |- _ =>
                apply elem_of_difference in H as [H _]; by apply Hi
            end).
  all: by destruct (He _ eq_refl).
Qed.

Lemma wf_run (events : list Event) (s : Scanner) : wf s → wf (run events s).
Proof.
  unfold run. revert s.
  induction events as [|e events IH]; intros s Hs; simpl; [done|].
  by apply IH, wf_step.
Qed.

Lemma run_app (l1 l2 : list Event) (s : Scanner) :
  run (l1 ++ l2) s = run l2 (run l1 s).
Proof. unfold run. apply foldl_app. Qed.

(** X13. In every state the scanner can reach, a click on Stop Scanning
    and a decoded code both leave the scanning state and cancel the interval
    whose handle [intervalRef] holds: the handle is there, and the test of
    its truthiness lets the cancellation through. *)
Theorem stop_and_decode_cancel (events : list Event) :
  let s := run events initial in
  (enabled ClickStop s = true →
     ∃ h, intervalRef s = Some h
          ∧ (h ∉ intervals (step s ClickStop))
          ∧ isScanning (step s ClickStop) = false)
  ∧ (∀ data, enabled ClickStop s = true → (0 < loading s)%nat →
       ∃ h, intervalRef s = Some h
            ∧ (h ∉ intervals (step s (ImageLoaded true (Some data))))
            ∧ isScanning (step s (ImageLoaded true (Some data))) = false
            ∧ calls (step s (ImageLoaded true (Some data)))
              = calls s ++ [OnScan data]).
Proof.
  intros s. assert (Hwf : wf s) by apply wf_run, wf_initial.
  assert (Href : enabled ClickStop s = true →
            mounted s = true ∧ ∃ h, intervalRef s = Some h ∧ h ≠ 0%nat).
  { simpl. intros [Hm Hs]%andb_true_iff. split; [done|].
    destruct (wf_scanning s Hwf Hs) as [h Hh]. exists h. split; [done|].
    pose proof (wf_ref s Hwf h Hh). lia. }
  split.
  - intros Hen. destruct (Href Hen) as (Hm & h & Hh & Hne).
    exists h. split; [done|]. unfold step. rewrite Hen. simpl.
    split; [by apply stopScanning_cancels|].
    unfold stopScanning, clearIntervalRef, setIsScanning. rewrite Hm. simpl.
    rewrite Hh. by destruct (h =? 0)%nat.
  - intros data Hen Hl. destruct (Href Hen) as (Hm & h & Hh & Hne).
    exists h. split; [done|]. unfold step. simpl.
    apply Nat.ltb_lt in Hl. rewrite Hl.
    destruct (onload_cancels (setLoading (pred (loading s)) s) h data)
      as [Hcancel Hcalls]; [done | done |].
    split; [exact Hcancel|]. split; [|exact Hcalls].
    unfold react, onload, call, clearIntervalRef, setIsScanning, setLoading.
    simpl. rewrite Hm. simpl. rewrite Hh. by destruct (h =? 0)%nat.
Qed.

Lemma stop_and_decode_cancel_witness :
  ∃ h, intervalRef (run [ClickStart; Tick 1 true] initial) = Some h
       ∧ (h ∉ intervals (step (run [ClickStart; Tick 1 true] initial)
                           (ImageLoaded true (Some "EV-7"))))
       ∧ calls (step (run [ClickStart; Tick 1 true] initial)
                  (ImageLoaded true (Some "EV-7")))
         = [OnScan "EV-7"].
Proof.
  destruct (stop_and_decode_cancel [ClickStart; Tick 1 true]) as [_ Hdecode].
  destruct (Hdecode "EV-7" eq_refl) as (h & Hh & Hcancel & _ & Hcalls).
  - vm_compute. lia.
  - exists h. split; [exact Hh|]. split; [exact Hcancel | exact Hcalls].
Defined.

(** X14. An interval that fires while the webcam is not rendered, after a
    stop, a camera error or the removal of the component, finds the webcam
    ref null and does nothing, and so does one that gets no screenshot: no
    image is created and no prop is called, however often it fires. *)
Theorem ticks_without_webcam (s : Scanner) (ticks : list (nat * bool)) :
  webcamRendered s = false ∨ Forall (λ t, t.2 = false) ticks →
  run (List.map (λ t, Tick t.1 t.2) ticks) s = s.
Proof.
  intros Hidle. unfold run.
  induction ticks as [|[h shot] ticks IH]; simpl; [done|].
  assert (Hstep : step s (Tick h shot) = s).
  { unfold step, react, tick. destruct (enabled _ s); [|done].
    destruct Hidle as [->|Hshots]; [done|].
    apply Forall_cons in Hshots as [Hshot _]. simpl in Hshot.
    rewrite Hshot. by rewrite andb_false_r. }
  rewrite Hstep. apply IH.
  destruct Hidle as [Hidle|Hshots]; [by left | right].
  by apply Forall_cons in Hshots as [_ Hshots].
Qed.

Lemma ticks_without_webcam_witness :
  run (List.map (λ t, Tick t.1 t.2) [(1%nat, true); (1%nat, true)])
    (run [ClickStart; UserMediaError] initial)
  = run [ClickStart; UserMediaError] initial.
Proof.
  apply (ticks_without_webcam (run [ClickStart; UserMediaError] initial)
           [(1%nat, true); (1%nat, true)]).
  left. reflexivity.
Defined.

(** *** Where intervals come from and where they go *)

(** The events after which the scan loop may stay behind. *)
Definition leaky (e : Event) : bool :=
  match e with
  | UserMediaError | Unmount => true
  | _ => false
  end.

(** The component is mounted and the only interval registered, if any, is
    the one of the scan that is running. *)
Definition tidy (s : Scanner) : Prop :=
  mounted s = true
  ∧ intervals s
    = if isScanning s
      then match intervalRef s with Some h => {[h]} | None => ∅ end
      else ∅.

Lemma tidy_step (s : Scanner) (e : Event) :
  wf s → tidy s → leaky e = false → tidy (step s e).
Proof.
  intros Hwf [Hm Hi] He. unfold step.
  destruct (enabled e s) eqn:Hen; [|done].
  pose proof (wf_ref s Hwf) as Hr. pose proof (wf_scanning s Hwf) as Hs.
  destruct s as [m sc er ref ivs nx ld cs]. simpl in Hm, Hi, Hr, Hs. subst m.
  destruct e; try discriminate He; simpl in Hen |- *;
    unfold tidy, startScanning, stopScanning, handleManualEntry, tick, onload,
      call, clearIntervalRef, setIntervalRef, setIsScanning, setError,
      setLoading, webcamRendered; simpl.
  - destruct sc; [done|]. simpl. subst ivs. split; [done|].
    apply union_empty_r_L.
  - destruct sc; [|done]. destruct (Hs eq_refl) as [h ->]. simpl.
    destruct (Nat.eqb_spec h 0) as [->|_]; simpl.
    + specialize (Hr 0%nat eq_refl). lia.
    + subst ivs. split; [done|]. apply difference_diag_L.
  - done.
  - done.
  - destruct sc; simpl; destruct screenshot; simpl; done.
  - destruct context; [|done]. destruct code as [data|]; [|done]. simpl.
    destruct ref as [h|]; simpl.
    + destruct (Nat.eqb_spec h 0) as [->|_]; simpl.
      * specialize (Hr 0%nat eq_refl). lia.
      * split; [done|]. subst ivs.
        destruct sc; [apply difference_diag_L | apply difference_disjoint_L].
        set_solver.
    + split; [done|]. destruct sc; [|done].
      by destruct (Hs eq_refl) as [? [=]].
Qed.

(** X15. As long as the camera does not fail and the component is not
    removed, no interval is left behind: through every sequence of starts,
    stops, manual entries, ticks and image loads, no interval is registered
    while the scanner is idle, and while it scans the only registered
    interval is the one held in [intervalRef]. *)
Theorem scan_loop_tidy (events : list Event) :
  existsb leaky events = false →
  let s := run events initial in
  (isScanning s = false → intervals s = ∅)
  ∧ (isScanning s = true → ∃ h, intervalRef s = Some h ∧ intervals s = {[h]}).
Proof.
  intros Hev s.
  assert (Hinv : ∀ s0, wf s0 → tidy s0 → wf (run events s0) ∧ tidy (run events s0)).
  { clear s. unfold run. induction events as [|e events IH]; intros s0 Hwf Ht.
    - done.
    - simpl in Hev. apply orb_false_iff in Hev as [He Hev]. simpl.
      apply IH; [done | by apply wf_step | by apply tidy_step]. }
  destruct (Hinv initial wf_initial) as [Hwf [_ Hi]]; [done|].
  fold s in Hwf, Hi. split.
  - intros Hs. by rewrite Hs in Hi.
  - intros Hs. rewrite Hs in Hi.
    destruct (wf_scanning s Hwf Hs) as [h Hh]. exists h. split; [done|].
    by rewrite Hh in Hi.
Qed.

Lemma scan_loop_tidy_witness :
  intervals (run [ClickStart; Tick 1 true; ClickStop; ClickStart;
                  ImageLoaded true (Some "EV-2"); ClickManual] initial)
  = ∅.
Proof.
  destruct (scan_loop_tidy [ClickStart; Tick 1 true; ClickStop; ClickStart;
                            ImageLoaded true (Some "EV-2"); ClickManual])
    as [Hidle _]; [reflexivity|].
  apply Hidle. reflexivity.
Defined.

Definition isClickStart (e : Event) : bool :=
  match e with ClickStart => true | _ => false end.

(** Nothing has been started: no scan, no interval, no image. *)
Definition untouched (s : Scanner) : Prop :=
  isScanning s = false ∧ intervals s = ∅ ∧ loading s = 0%nat
  ∧ Forall (λ c, c = OnBack ∨ c = OnScan "EV-STATION-001-PORT-A") (calls s).

Lemma untouched_step (s : Scanner) (e : Event) :
  untouched s → isClickStart e = false → untouched (step s e).
Proof.
  intros (Hs & Hi & Hl & Hc) He. unfold step.
  destruct (enabled e s) eqn:Hen; [|done].
  destruct s as [m sc er ref ivs nx ld cs]. simpl in Hs, Hi, Hl, Hc. subst.
  destruct e; try discriminate He; simpl in Hen.
  - by rewrite andb_false_r in Hen.
  - unfold untouched. simpl. repeat split; try done.
    apply Forall_app. split; [done|]. apply Forall_singleton. by right.
  - unfold untouched. simpl. repeat split; try done.
    apply Forall_app. split; [done|]. apply Forall_singleton. by left.
  - unfold webcamRendered in Hen. simpl in Hen.
    by rewrite andb_false_r in Hen.
  - apply bool_decide_eq_true in Hen. by apply not_elem_of_empty in Hen.
  - discriminate Hen.
  - done.
Qed.

(** X16. The camera is not polled before the user asks for it: as long as
    Start Scanning has not been clicked, the scanner is idle, no interval
    is registered, no image is being decoded, and the only results handed
    to [onScan] are those of manual entry. *)
Theorem no_poll_before_start (events : list Event) :
  existsb isClickStart events = false →
  let s := run events initial in
  isScanning s = false ∧ intervals s = ∅ ∧ loading s = 0%nat
  ∧ Forall (λ c, c = OnBack ∨ c = OnScan "EV-STATION-001-PORT-A") (calls s).
Proof.
  intros Hev s. subst s.
  assert (Hinv : ∀ s0, untouched s0 → untouched (run events s0)).
  { unfold run. induction events as [|e events IH]; intros s0 Hs0; [done|].
    simpl in Hev. apply orb_false_iff in Hev as [He Hev]. simpl.
    apply IH; [done | by apply untouched_step]. }
  apply Hinv. by repeat split.
Qed.

Lemma no_poll_before_start_witness :
  let s := run [Tick 1 true; ClickManual; ImageLoaded true (Some "EV-3");
                ClickBack; Unmount; Tick 1 true] initial in
  intervals s = ∅ ∧ loading s = 0%nat.
Proof.
  intros s.
  destruct (no_poll_before_start
              [Tick 1 true; ClickManual; ImageLoaded true (Some "EV-3");
               ClickBack; Unmount; Tick 1 true] eq_refl)
    as (_ & Hi & Hl & _).
  split; [exact Hi | exact Hl].
Defined.

(** Each event adds at most one call, and which one is decided by the
    event. *)
Lemma step_calls (s : Scanner) (e : Event) :
  calls (step s e) = calls s
  ∨ (e = ClickManual
     ∧ calls (step s e) = calls s ++ [OnScan "EV-STATION-001-PORT-A"])
  ∨ (e = ClickBack ∧ calls (step s e) = calls s ++ [OnBack])
  ∨ (∃ data, e = ImageLoaded true (Some data)
       ∧ calls (step s e) = calls s ++ [OnScan data]).
Proof.
  unfold step. destruct (enabled e s); [|by left].
  destruct e; simpl.
  - left. unfold startScanning, setIntervalRef. simpl.
    destruct (setError_frame None (setIsScanning true s)) as (_ & _ & -> & _).
    by destruct (setIsScanning_frame true s) as (_ & _ & -> & _).
  - left. unfold stopScanning. rewrite clearIntervalRef_calls.
    by destruct (setIsScanning_frame false s) as (_ & _ & -> & _).
  - right; by left.
  - right; right; by left.
  - left. unfold onUserMediaError.
    destruct (setIsScanning_frame false
                (setError (Some "Camera access denied. Please enable camera permissions.") s))
      as (_ & _ & -> & _).
    by destruct (setError_frame
                   (Some "Camera access denied. Please enable camera permissions.") s)
      as (_ & _ & -> & _).
  - left. unfold tick. by destruct (webcamRendered s && screenshot).
  - destruct context; [|by left]. destruct code as [data|]; [|by left].
    right; right; right. exists data. split; [done|].
    unfold onload, call. simpl. rewrite clearIntervalRef_calls.
    by destruct (setIsScanning_frame false (setLoading (pred (loading s)) s))
      as (_ & _ & -> & _).
  - by left.
Qed.

(** X17. The scanner does not make up results.  Whatever happens, a result
    handed to [onScan] is the manual constant, after a click on Enter Code
    Manually, or the code [jsQR] found in an image that loaded; and
    [onBack] is only called by a click on the back button. *)
Theorem onScan_provenance (events : list Event) :
  let s := run events initial in
  (∀ data, OnScan data ∈ calls s →
     data = "EV-STATION-001-PORT-A" ∧ ClickManual ∈ events
     ∨ ImageLoaded true (Some data) ∈ events)
  ∧ (OnBack ∈ calls s → ClickBack ∈ events).
Proof.
  intros s. subst s.
  assert (Hinv : ∀ s0 c, c ∈ calls (run events s0) →
            c ∈ calls s0
            ∨ match c with
              | OnScan data =>
                  data = "EV-STATION-001-PORT-A" ∧ ClickManual ∈ events
                  ∨ ImageLoaded true (Some data) ∈ events
              | OnBack => ClickBack ∈ events
              end).
  { unfold run. induction events as [|e events IH]; intros s0 c Hc; [by left|].
    simpl in Hc. apply IH in Hc as [Hc|Hc].
    - destruct (step_calls s0 e)
        as [Heq | [[-> Heq] | [[-> Heq] | (data & -> & Heq)]]];
        rewrite Heq in Hc; [by left | | |];
        apply elem_of_app in Hc as [Hc|Hc%list_elem_of_singleton];
        try (by left); subst c; right.
      + left. split; [done | left].
      + left.
      + right. left.
    - right. destruct c as [data|].
      + destruct Hc as [[Hd Hc]|Hc]; [left; split; [done|] | right]; by right.
      + by right. }
  split.
  - intros data Hc. by destruct (Hinv initial _ Hc) as [?%elem_of_nil|?].
  - intros Hc. by destruct (Hinv initial _ Hc) as [?%elem_of_nil|?].
Qed.

Lemma onScan_provenance_witness :
  ImageLoaded true (Some "EV-9")
  ∈ [ClickStart; Tick 1 true; ImageLoaded true (Some "EV-9")].
Proof.
  destruct (onScan_provenance
              [ClickStart; Tick 1 true; ImageLoaded true (Some "EV-9")])
    as [Hscan _].
  destruct (Hscan "EV-9") as [[Hmanual _]|Hin].
  - vm_compute. left.
  - discriminate Hmanual.
  - exact Hin.
Defined.

(** X18. Start then stop leaves no trace.  From every state the scanner
    can reach in which Start Scanning is offered, a click on it followed by
    a click on Stop Scanning gives back the same set of registered
    intervals, the idle state, no error, and the same calls and pending
    images. *)
Theorem start_stop_round_trip (events : list Event) :
  let s := run events initial in
  enabled ClickStart s = true →
  let s' := run [ClickStart; ClickStop] s in
  intervals s' = intervals s
  ∧ isScanning s' = false
  ∧ error s' = None
  ∧ calls s' = calls s
  ∧ loading s' = loading s.
Proof.
  intros s Hen s'. subst s'.
  assert (Hwf : wf s) by apply wf_run, wf_initial.
  pose proof (wf_next s Hwf) as Hn. pose proof (wf_intervals s Hwf) as Hi.
  clearbody s. destruct s as [m sc er ref ivs nx ld cs].
  simpl in Hen, Hn, Hi.
  apply andb_true_iff in Hen as [-> ->%negb_true_iff].
  unfold run. simpl. unfold step. simpl.
  unfold stopScanning, startScanning, clearIntervalRef, setIntervalRef,
    setIsScanning, setError. simpl.
  destruct (Nat.eqb_spec nx 0) as [->|_]; [lia|]. simpl.
  repeat split.
  assert (Hfresh : nx ∉ ivs) by (intros H%Hi; lia).
  rewrite difference_union_distr_l_L, difference_diag_L, union_empty_l_L.
  apply difference_disjoint_L. by apply disjoint_singleton_r.
Qed.

Lemma start_stop_round_trip_witness :
  intervals (run [ClickStart; ClickStop]
               (run [ClickStart; UserMediaError] initial))
  = intervals (run [ClickStart; UserMediaError] initial).
Proof.
  destruct (start_stop_round_trip [ClickStart; UserMediaError] eq_refl)
    as (Hi & _).
  exact Hi.
Defined.

(** The camera fails [n] times in a row. *)
Fixpoint cameraFailures (n : nat) : list Event :=
  match n with
  | O => []
  | S n' => ClickStart :: UserMediaError :: cameraFailures n'
  end.

Lemma cameraFailures_from (n : nat) (s : Scanner) :
  wf s → mounted s = true → isScanning s = false →
  ∀ h, h ∈ intervals (run (cameraFailures n) s)
       ↔ h ∈ intervals s ∨ (nextHandle s ≤ h < nextHandle s + n)%nat.
Proof.
  revert s. induction n as [|n IH]; intros s Hwf Hm Hs h; simpl.
  - split; [by left | intros [?|?]; [done | lia]].
  - change (run (ClickStart :: UserMediaError :: cameraFailures n) s)
      with (run (cameraFailures n) (step (step s ClickStart) UserMediaError)).
    set (s2 := step (step s ClickStart) UserMediaError).
    assert (Hs2 : mounted s2 = true ∧ isScanning s2 = false
                  ∧ nextHandle s2 = S (nextHandle s)
                  ∧ intervals s2 = {[nextHandle s]} ∪ intervals s).
    { subst s2. destruct s as [m sc er ref ivs nx ld cs].
      simpl in Hm, Hs. subst m sc. done. }
    destruct Hs2 as (Hm2 & Hsc2 & Hn2 & Hi2).
    rewrite (IH s2); [| by do 2 apply wf_step | done | done].
    rewrite Hi2, Hn2, elem_of_union, elem_of_singleton. split.
    + intros [[->|H]|H]; [right; lia | by left | right; lia].
    + intros [H|H]; [left; by right|].
      destruct (decide (h = nextHandle s)) as [->|Hne];
        [left; by left | right; lia].
Qed.

(** X19. Every failed start leaves one interval behind.  After the camera
    was denied [n] times in a row, starting from a fresh scanner, exactly
    the [n] intervals with handles 1 to [n] are still registered, and the
    scanner shows the idle state. *)
Theorem camera_failures_accumulate (n : nat) :
  let s := run (cameraFailures n) initial in
  (∀ h, h ∈ intervals s ↔ (1 ≤ h ≤ n)%nat)
  ∧ size (intervals s) = n.
Proof.
  intros s.
  assert (Hmem : ∀ h, h ∈ intervals s ↔ (1 ≤ h ≤ n)%nat).
  { intros h. subst s.
    rewrite (cameraFailures_from n initial wf_initial eq_refl eq_refl).
    simpl. rewrite elem_of_empty. lia. }
  split; [exact Hmem|].
  assert (Heq : intervals s = set_seq 1 n).
  { apply set_eq. intros h. rewrite Hmem, elem_of_set_seq. lia. }
  rewrite Heq. apply size_set_seq.
Qed.

(** *** What the scanner shows *)

(** The error line of the camera placeholder, which is rendered while the
    scanner is idle, and the label of the first action button. *)
Definition errorMessage (s : Scanner) : option string :=
  if isScanning s then None else error s.

Definition actionButton (s : Scanner) : string :=
  if isScanning s then "Stop Scanning" else "Start Scanning".

(** X20. An error is never hidden.  In every state the scanner can reach,
    an error in the state is the camera message, the scanner is idle with
    Start Scanning offered, and the message is on display; a click on Start
    Scanning clears it. *)
Theorem error_on_display (events : list Event) :
  let s := run events initial in
  errorMessage s = error s
  ∧ (∀ m, error s = Some m →
       m = "Camera access denied. Please enable camera permissions."
       ∧ actionButton s = "Start Scanning")
  ∧ (enabled ClickStart s = true → error (step s ClickStart) = None).
Proof.
  intros s. assert (Hwf : wf s) by apply wf_run, wf_initial.
  clearbody s.
  pose proof (wf_error s Hwf) as He. unfold errorMessage, actionButton.
  split; [|split].
  - destruct (error s) as [m|] eqn:E.
    + destruct (He m eq_refl) as [_ ->]. done.
    + by destruct (isScanning s).
  - intros m Hm. destruct (He m Hm) as [-> ->]. done.
  - intros Hen. unfold step. rewrite Hen. simpl in Hen.
    apply andb_true_iff in Hen as [Hm _].
    unfold react, startScanning, setIntervalRef, setError, setIsScanning.
    by rewrite Hm.
Qed.

Lemma error_on_display_witness :
  errorMessage (run [ClickStart; UserMediaError] initial)
    = Some "Camera access denied. Please enable camera permissions."
  ∧ error (step (run [ClickStart; UserMediaError] initial) ClickStart) = None.
Proof.
  destruct (error_on_display [ClickStart; UserMediaError])
    as (Hshow & _ & Hclear).
  split; [by rewrite Hshow | by apply Hclear].
Defined.

End QRScanner.

(** ** The controller of [App.tsx] *)

Module App.
Import JsString MapView.

(** Modelled from the spec: the active view of the selection controller of
    [App.tsx], a file that is not among the sources (section 4.3: the states
    Discovery, Detail, Scanning and Profile). *)
Inductive ApplicationView :=
| Discovery
| StationDetail
| Scanning
| Profile.

(** Modelled from the spec: the state of the controller, which [App.tsx]
    keeps: the active view, the orthogonal [selectedStationId] and the flag
    of the charging session (sections 3 and 4.3). *)
Record Controller := {
  activeView : ApplicationView;
  selectedStationId : option string;
  chargingActive : bool
}.

(** Modelled from the spec: the transition [scanResult (code)] of [App.tsx]
    (section 4.3: from Scanning to Discovery, with the flag of the charging
    session set; section 4.6: any non-empty string is accepted).  A code
    that is not accepted, or a result outside the scanning state, has no
    row in the table and leaves the controller as it is. *)
Definition scanResult (code : string) (c : Controller) : Controller :=
  match activeView c with
  | Scanning =>
      if truthy code
      then {| activeView := Discovery;
              selectedStationId := selectedStationId c;
              chargingActive := true |}
      else c
  | _ => c
  end.

(** Modelled from the spec: the props [App.tsx] renders the discovery view
    with; the component takes the stations and the flag, [MapViewProps]
    has no field for more. *)
Definition discoveryProps (registry : list ChargingStation) (c : Controller)
    : MapViewProps :=
  {| stations := registry; isCharging := chargingActive c |}.

(** C5, as the program has it.  When a scan result is accepted in the
    scanning state, the flag of the charging session is set and the
    discovery view is shown again, the selection being as before.  The flag
    reaches the discovery view as a boolean without descriptive fields, and
    the banner then shows a fixed text, naming Downtown Plaza with 45
    minutes remaining and 78 percent charged, whatever the stations and the
    selection.  With the flag unset there is no banner. *)
Theorem scan_sets_flag_banner_fixed (registry : list ChargingStation)
    (c : Controller) (code : string) :
  (activeView c = Scanning → code ≠ "" →
     let c' := scanResult code c in
     activeView c' = Discovery
     ∧ chargingActive c' = true
     ∧ selectedStationId c' = selectedStationId c
     ∧ chargingBanner (discoveryProps registry c') = Some fixedBanner)
  ∧ (chargingActive c = true →
       chargingBanner (discoveryProps registry c) = Some fixedBanner)
  ∧ (chargingActive c = false →
       chargingBanner (discoveryProps registry c) = None).
Proof.
  split; [|split].
  - intros Hv Hcode. unfold scanResult. rewrite Hv.
    destruct code as [|a code]; [done|]. by simpl.
  - unfold chargingBanner, discoveryProps. simpl. by intros ->.
  - unfold chargingBanner, discoveryProps. simpl. by intros ->.
Qed.

Lemma scan_sets_flag_banner_fixed_witness :
  chargingBanner
    (discoveryProps mockStations
       (scanResult "EV-STATION-001-PORT-A"
          {| activeView := Scanning; selectedStationId := Some "2";
             chargingActive := false |}))
  = Some fixedBanner.
Proof.
  destruct (scan_sets_flag_banner_fixed mockStations
              {| activeView := Scanning; selectedStationId := Some "2";
                 chargingActive := false |} "EV-STATION-001-PORT-A")
    as [Hscan _].
  destruct Hscan as (_ & _ & _ & Hbanner); [reflexivity | discriminate |].
  exact Hbanner.
Defined.

End App.

(** ** The built-in [String.prototype.toLowerCase] and the search beyond ASCII *)

Module Unicode.
Local Open Scope N_scope.
Local Open Scope list_scope.

(** A JavaScript string is its sequence of UTF-16 code units.  A string
    literal of this file stands for the JavaScript string whose UTF-8
    encoding it is; a byte sequence that is not UTF-8 reads as U+FFFD. *)
Definition byte (a : ascii) : N := N_of_ascii a.

Definition isCont (b : N) : bool := (0x80 <=? b) && (b <? 0xC0).

Fixpoint utf8Decode (s : string) : list N :=
  match s with
  | EmptyString => []
  | String a0 s1 =>
      if byte a0 <? 0x80 then byte a0 :: utf8Decode s1
      else
        match s1 with
        | EmptyString => [0xFFFD]
        | String a1 s2 =>
            if (0xC0 <=? byte a0) && (byte a0 <? 0xE0) && isCont (byte a1)
            then ((byte a0 - 0xC0) * 0x40 + (byte a1 - 0x80)) :: utf8Decode s2
            else
              match s2 with
              | EmptyString => 0xFFFD :: utf8Decode s1
              | String a2 s3 =>
                  if (0xE0 <=? byte a0) && (byte a0 <? 0xF0)
                     && isCont (byte a1) && isCont (byte a2)
                  then ((byte a0 - 0xE0) * 0x1000 + (byte a1 - 0x80) * 0x40
                        + (byte a2 - 0x80)) :: utf8Decode s3
                  else
                    match s3 with
                    | EmptyString => 0xFFFD :: utf8Decode s1
                    | String a3 s4 =>
                        if (0xF0 <=? byte a0) && (byte a0 <? 0xF8)
                           && isCont (byte a1) && isCont (byte a2)
                           && isCont (byte a3)
                        then ((byte a0 - 0xF0) * 0x40000
                              + (byte a1 - 0x80) * 0x1000
                              + (byte a2 - 0x80) * 0x40
                              + (byte a3 - 0x80)) :: utf8Decode s4
                        else 0xFFFD :: utf8Decode s1
                    end
              end
        end
  end.

(** [CodePointsToString]: a code point above the basic plane becomes a
    surrogate pair. *)
Definition codePointToUnits (cp : N) : list N :=
  if cp <? 0x10000 then [cp]
  else [0xD800 + (cp - 0x10000) / 0x400; 0xDC00 + (cp - 0x10000) mod 0x400].

Definition codePointsToString (cps : list N) : list N :=
  flat_map codePointToUnits cps.

(** The JavaScript string a literal stands for. *)
Definition js (s : string) : list N := codePointsToString (utf8Decode s).

(** [StringToCodePoints]: a high surrogate followed by a low one is one
    code point, every other unit is a code point by itself. *)
Definition isHigh (u : N) : bool := (0xD800 <=? u) && (u <? 0xDC00).
Definition isLow (u : N) : bool := (0xDC00 <=? u) && (u <? 0xE000).

Fixpoint stringToCodePoints (units : list N) : list N :=
  match units with
  | [] => []
  | u :: rest =>
      match rest with
      | v :: rest' =>
          if isHigh u && isLow v
          then (0x10000 + (u - 0xD800) * 0x400 + (v - 0xDC00))
               :: stringToCodePoints rest'
          else u :: stringToCodePoints rest
      | [] => [u]
      end
  end.

(** The lower-case mappings of the Unicode Character Database, version
    14.0: a row [(lo, hi, step, to)] sends the code points [lo], [lo + step],
    ..., [hi] to [to], [to + step], ...  Then the code points with the
    property Cased and those with the property Case_Ignorable, as ranges. *)
Definition lowerRows : list (N * N * N * N) :=
  [
    (0x41, 0x5A, 1, 0x61); (0xC0, 0xD6, 1, 0xE0); (0xD8, 0xDE, 1, 0xF8);
    (0x100, 0x12E, 2, 0x101); (0x132, 0x136, 2, 0x133); (0x139, 0x147, 2, 0x13A);
    (0x14A, 0x176, 2, 0x14B); (0x178, 0x178, 1, 0xFF); (0x179, 0x17D, 2, 0x17A);
    (0x181, 0x181, 1, 0x253); (0x182, 0x184, 2, 0x183); (0x186, 0x186, 1, 0x254);
    (0x187, 0x187, 1, 0x188); (0x189, 0x18A, 1, 0x256); (0x18B, 0x18B, 1, 0x18C);
    (0x18E, 0x18E, 1, 0x1DD); (0x18F, 0x18F, 1, 0x259); (0x190, 0x190, 1, 0x25B);
    (0x191, 0x191, 1, 0x192); (0x193, 0x193, 1, 0x260); (0x194, 0x194, 1, 0x263);
    (0x196, 0x196, 1, 0x269); (0x197, 0x197, 1, 0x268); (0x198, 0x198, 1, 0x199);
    (0x19C, 0x19C, 1, 0x26F); (0x19D, 0x19D, 1, 0x272); (0x19F, 0x19F, 1, 0x275);
    (0x1A0, 0x1A4, 2, 0x1A1); (0x1A6, 0x1A6, 1, 0x280); (0x1A7, 0x1A7, 1, 0x1A8);
    (0x1A9, 0x1A9, 1, 0x283); (0x1AC, 0x1AC, 1, 0x1AD); (0x1AE, 0x1AE, 1, 0x288);
    (0x1AF, 0x1AF, 1, 0x1B0); (0x1B1, 0x1B2, 1, 0x28A); (0x1B3, 0x1B5, 2, 0x1B4);
    (0x1B7, 0x1B7, 1, 0x292); (0x1B8, 0x1B8, 1, 0x1B9); (0x1BC, 0x1BC, 1, 0x1BD);
    (0x1C4, 0x1C4, 1, 0x1C6); (0x1C5, 0x1C5, 1, 0x1C6); (0x1C7, 0x1C7, 1, 0x1C9);
    (0x1C8, 0x1C8, 1, 0x1C9); (0x1CA, 0x1CA, 1, 0x1CC); (0x1CB, 0x1DB, 2, 0x1CC);
    (0x1DE, 0x1EE, 2, 0x1DF); (0x1F1, 0x1F1, 1, 0x1F3); (0x1F2, 0x1F4, 2, 0x1F3);
    (0x1F6, 0x1F6, 1, 0x195); (0x1F7, 0x1F7, 1, 0x1BF); (0x1F8, 0x21E, 2, 0x1F9);
    (0x220, 0x220, 1, 0x19E); (0x222, 0x232, 2, 0x223); (0x23A, 0x23A, 1, 0x2C65);
    (0x23B, 0x23B, 1, 0x23C); (0x23D, 0x23D, 1, 0x19A); (0x23E, 0x23E, 1, 0x2C66);
    (0x241, 0x241, 1, 0x242); (0x243, 0x243, 1, 0x180); (0x244, 0x244, 1, 0x289);
    (0x245, 0x245, 1, 0x28C); (0x246, 0x24E, 2, 0x247); (0x370, 0x372, 2, 0x371);
    (0x376, 0x376, 1, 0x377); (0x37F, 0x37F, 1, 0x3F3); (0x386, 0x386, 1, 0x3AC);
    (0x388, 0x38A, 1, 0x3AD); (0x38C, 0x38C, 1, 0x3CC); (0x38E, 0x38F, 1, 0x3CD);
    (0x391, 0x3A1, 1, 0x3B1); (0x3A3, 0x3AB, 1, 0x3C3); (0x3CF, 0x3CF, 1, 0x3D7);
    (0x3D8, 0x3EE, 2, 0x3D9); (0x3F4, 0x3F4, 1, 0x3B8); (0x3F7, 0x3F7, 1, 0x3F8);
    (0x3F9, 0x3F9, 1, 0x3F2); (0x3FA, 0x3FA, 1, 0x3FB); (0x3FD, 0x3FF, 1, 0x37B);
    (0x400, 0x40F, 1, 0x450); (0x410, 0x42F, 1, 0x430); (0x460, 0x480, 2, 0x461);
    (0x48A, 0x4BE, 2, 0x48B); (0x4C0, 0x4C0, 1, 0x4CF); (0x4C1, 0x4CD, 2, 0x4C2);
    (0x4D0, 0x52E, 2, 0x4D1); (0x531, 0x556, 1, 0x561); (0x10A0, 0x10C5, 1, 0x2D00);
    (0x10C7, 0x10C7, 1, 0x2D27); (0x10CD, 0x10CD, 1, 0x2D2D); (0x13A0, 0x13EF, 1, 0xAB70);
    (0x13F0, 0x13F5, 1, 0x13F8); (0x1C90, 0x1CBA, 1, 0x10D0); (0x1CBD, 0x1CBF, 1, 0x10FD);
    (0x1E00, 0x1E94, 2, 0x1E01); (0x1E9E, 0x1E9E, 1, 0xDF); (0x1EA0, 0x1EFE, 2, 0x1EA1);
    (0x1F08, 0x1F0F, 1, 0x1F00); (0x1F18, 0x1F1D, 1, 0x1F10); (0x1F28, 0x1F2F, 1, 0x1F20);
    (0x1F38, 0x1F3F, 1, 0x1F30); (0x1F48, 0x1F4D, 1, 0x1F40); (0x1F59, 0x1F5F, 2, 0x1F51);
    (0x1F68, 0x1F6F, 1, 0x1F60); (0x1F88, 0x1F8F, 1, 0x1F80); (0x1F98, 0x1F9F, 1, 0x1F90);
    (0x1FA8, 0x1FAF, 1, 0x1FA0); (0x1FB8, 0x1FB9, 1, 0x1FB0); (0x1FBA, 0x1FBB, 1, 0x1F70);
    (0x1FBC, 0x1FBC, 1, 0x1FB3); (0x1FC8, 0x1FCB, 1, 0x1F72); (0x1FCC, 0x1FCC, 1, 0x1FC3);
    (0x1FD8, 0x1FD9, 1, 0x1FD0); (0x1FDA, 0x1FDB, 1, 0x1F76); (0x1FE8, 0x1FE9, 1, 0x1FE0);
    (0x1FEA, 0x1FEB, 1, 0x1F7A); (0x1FEC, 0x1FEC, 1, 0x1FE5); (0x1FF8, 0x1FF9, 1, 0x1F78);
    (0x1FFA, 0x1FFB, 1, 0x1F7C); (0x1FFC, 0x1FFC, 1, 0x1FF3); (0x2126, 0x2126, 1, 0x3C9);
    (0x212A, 0x212A, 1, 0x6B); (0x212B, 0x212B, 1, 0xE5); (0x2132, 0x2132, 1, 0x214E);
    (0x2160, 0x216F, 1, 0x2170); (0x2183, 0x2183, 1, 0x2184); (0x24B6, 0x24CF, 1, 0x24D0);
    (0x2C00, 0x2C2F, 1, 0x2C30); (0x2C60, 0x2C60, 1, 0x2C61); (0x2C62, 0x2C62, 1, 0x26B);
    (0x2C63, 0x2C63, 1, 0x1D7D); (0x2C64, 0x2C64, 1, 0x27D); (0x2C67, 0x2C6B, 2, 0x2C68);
    (0x2C6D, 0x2C6D, 1, 0x251); (0x2C6E, 0x2C6E, 1, 0x271); (0x2C6F, 0x2C6F, 1, 0x250);
    (0x2C70, 0x2C70, 1, 0x252); (0x2C72, 0x2C72, 1, 0x2C73); (0x2C75, 0x2C75, 1, 0x2C76);
    (0x2C7E, 0x2C7F, 1, 0x23F); (0x2C80, 0x2CE2, 2, 0x2C81); (0x2CEB, 0x2CED, 2, 0x2CEC);
    (0x2CF2, 0x2CF2, 1, 0x2CF3); (0xA640, 0xA66C, 2, 0xA641); (0xA680, 0xA69A, 2, 0xA681);
    (0xA722, 0xA72E, 2, 0xA723); (0xA732, 0xA76E, 2, 0xA733); (0xA779, 0xA77B, 2, 0xA77A);
    (0xA77D, 0xA77D, 1, 0x1D79); (0xA77E, 0xA786, 2, 0xA77F); (0xA78B, 0xA78B, 1, 0xA78C);
    (0xA78D, 0xA78D, 1, 0x265); (0xA790, 0xA792, 2, 0xA791); (0xA796, 0xA7A8, 2, 0xA797);
    (0xA7AA, 0xA7AA, 1, 0x266); (0xA7AB, 0xA7AB, 1, 0x25C); (0xA7AC, 0xA7AC, 1, 0x261);
    (0xA7AD, 0xA7AD, 1, 0x26C); (0xA7AE, 0xA7AE, 1, 0x26A); (0xA7B0, 0xA7B0, 1, 0x29E);
    (0xA7B1, 0xA7B1, 1, 0x287); (0xA7B2, 0xA7B2, 1, 0x29D); (0xA7B3, 0xA7B3, 1, 0xAB53);
    (0xA7B4, 0xA7C2, 2, 0xA7B5); (0xA7C4, 0xA7C4, 1, 0xA794); (0xA7C5, 0xA7C5, 1, 0x282);
    (0xA7C6, 0xA7C6, 1, 0x1D8E); (0xA7C7, 0xA7C9, 2, 0xA7C8); (0xA7D0, 0xA7D0, 1, 0xA7D1);
    (0xA7D6, 0xA7D8, 2, 0xA7D7); (0xA7F5, 0xA7F5, 1, 0xA7F6); (0xFF21, 0xFF3A, 1, 0xFF41);
    (0x10400, 0x10427, 1, 0x10428); (0x104B0, 0x104D3, 1, 0x104D8); (0x10570, 0x10594, 2, 0x10597);
    (0x10571, 0x10579, 2, 0x10598); (0x1057D, 0x10589, 2, 0x105A4); (0x1058D, 0x10591, 2, 0x105B4);
    (0x10595, 0x10595, 1, 0x105BC); (0x10C80, 0x10CB2, 1, 0x10CC0); (0x118A0, 0x118BF, 1, 0x118C0);
    (0x16E40, 0x16E5F, 1, 0x16E60); (0x1E900, 0x1E921, 1, 0x1E922) ].

Definition casedRanges : list (N * N) :=
  [
    (0x41, 0x5A); (0x61, 0x7A); (0xAA, 0xAA); (0xB5, 0xB5);
    (0xBA, 0xBA); (0xC0, 0xD6); (0xD8, 0xF6); (0xF8, 0x1BA);
    (0x1BC, 0x1BF); (0x1C4, 0x293); (0x295, 0x2B8); (0x2C0, 0x2C1);
    (0x2E0, 0x2E4); (0x345, 0x345); (0x370, 0x373); (0x376, 0x377);
    (0x37A, 0x37D); (0x37F, 0x37F); (0x386, 0x386); (0x388, 0x38A);
    (0x38C, 0x38C); (0x38E, 0x3A1); (0x3A3, 0x3F5); (0x3F7, 0x481);
    (0x48A, 0x52F); (0x531, 0x556); (0x560, 0x588); (0x10A0, 0x10C5);
    (0x10C7, 0x10C7); (0x10CD, 0x10CD); (0x10D0, 0x10FA); (0x10FD, 0x10FF);
    (0x13A0, 0x13F5); (0x13F8, 0x13FD); (0x1C80, 0x1C88); (0x1C90, 0x1CBA);
    (0x1CBD, 0x1CBF); (0x1D00, 0x1DBF); (0x1E00, 0x1F15); (0x1F18, 0x1F1D);
    (0x1F20, 0x1F45); (0x1F48, 0x1F4D); (0x1F50, 0x1F57); (0x1F59, 0x1F59);
    (0x1F5B, 0x1F5B); (0x1F5D, 0x1F5D); (0x1F5F, 0x1F7D); (0x1F80, 0x1FB4);
    (0x1FB6, 0x1FBC); (0x1FBE, 0x1FBE); (0x1FC2, 0x1FC4); (0x1FC6, 0x1FCC);
    (0x1FD0, 0x1FD3); (0x1FD6, 0x1FDB); (0x1FE0, 0x1FEC); (0x1FF2, 0x1FF4);
    (0x1FF6, 0x1FFC); (0x2071, 0x2071); (0x207F, 0x207F); (0x2090, 0x209C);
    (0x2102, 0x2102); (0x2107, 0x2107); (0x210A, 0x2113); (0x2115, 0x2115);
    (0x2119, 0x211D); (0x2124, 0x2124); (0x2126, 0x2126); (0x2128, 0x2128);
    (0x212A, 0x212D); (0x212F, 0x2134); (0x2139, 0x2139); (0x213C, 0x213F);
    (0x2145, 0x2149); (0x214E, 0x214E); (0x2160, 0x217F); (0x2183, 0x2184);
    (0x24B6, 0x24E9); (0x2C00, 0x2CE4); (0x2CEB, 0x2CEE); (0x2CF2, 0x2CF3);
    (0x2D00, 0x2D25); (0x2D27, 0x2D27); (0x2D2D, 0x2D2D); (0xA640, 0xA66D);
    (0xA680, 0xA69D); (0xA722, 0xA787); (0xA78B, 0xA78E); (0xA790, 0xA7CA);
    (0xA7D0, 0xA7D1); (0xA7D3, 0xA7D3); (0xA7D5, 0xA7D9); (0xA7F5, 0xA7F6);
    (0xA7F8, 0xA7FA); (0xAB30, 0xAB5A); (0xAB5C, 0xAB68); (0xAB70, 0xABBF);
    (0xFB00, 0xFB06); (0xFB13, 0xFB17); (0xFF21, 0xFF3A); (0xFF41, 0xFF5A);
    (0x10400, 0x1044F); (0x104B0, 0x104D3); (0x104D8, 0x104FB); (0x10570, 0x1057A);
    (0x1057C, 0x1058A); (0x1058C, 0x10592); (0x10594, 0x10595); (0x10597, 0x105A1);
    (0x105A3, 0x105B1); (0x105B3, 0x105B9); (0x105BB, 0x105BC); (0x10780, 0x10780);
    (0x10783, 0x10785); (0x10787, 0x107B0); (0x107B2, 0x107BA); (0x10C80, 0x10CB2);
    (0x10CC0, 0x10CF2); (0x118A0, 0x118DF); (0x16E40, 0x16E7F); (0x1D400, 0x1D454);
    (0x1D456, 0x1D49C); (0x1D49E, 0x1D49F); (0x1D4A2, 0x1D4A2); (0x1D4A5, 0x1D4A6);
    (0x1D4A9, 0x1D4AC); (0x1D4AE, 0x1D4B9); (0x1D4BB, 0x1D4BB); (0x1D4BD, 0x1D4C3);
    (0x1D4C5, 0x1D505); (0x1D507, 0x1D50A); (0x1D50D, 0x1D514); (0x1D516, 0x1D51C);
    (0x1D51E, 0x1D539); (0x1D53B, 0x1D53E); (0x1D540, 0x1D544); (0x1D546, 0x1D546);
    (0x1D54A, 0x1D550); (0x1D552, 0x1D6A5); (0x1D6A8, 0x1D6C0); (0x1D6C2, 0x1D6DA);
    (0x1D6DC, 0x1D6FA); (0x1D6FC, 0x1D714); (0x1D716, 0x1D734); (0x1D736, 0x1D74E);
    (0x1D750, 0x1D76E); (0x1D770, 0x1D788); (0x1D78A, 0x1D7A8); (0x1D7AA, 0x1D7C2);
    (0x1D7C4, 0x1D7CB); (0x1DF00, 0x1DF09); (0x1DF0B, 0x1DF1E); (0x1E900, 0x1E943);
    (0x1F130, 0x1F149); (0x1F150, 0x1F169); (0x1F170, 0x1F189) ].

Definition caseIgnorableRanges : list (N * N) :=
  [
    (0x27, 0x27); (0x2E, 0x2E); (0x3A, 0x3A); (0x5E, 0x5E);
    (0x60, 0x60); (0xA8, 0xA8); (0xAD, 0xAD); (0xAF, 0xAF);
    (0xB4, 0xB4); (0xB7, 0xB8); (0x2B0, 0x36F); (0x374, 0x375);
    (0x37A, 0x37A); (0x384, 0x385); (0x387, 0x387); (0x483, 0x489);
    (0x559, 0x559); (0x55F, 0x55F); (0x591, 0x5BD); (0x5BF, 0x5BF);
    (0x5C1, 0x5C2); (0x5C4, 0x5C5); (0x5C7, 0x5C7); (0x5F4, 0x5F4);
    (0x600, 0x605); (0x610, 0x61A); (0x61C, 0x61C); (0x640, 0x640);
    (0x64B, 0x65F); (0x670, 0x670); (0x6D6, 0x6DD); (0x6DF, 0x6E8);
    (0x6EA, 0x6ED); (0x70F, 0x70F); (0x711, 0x711); (0x730, 0x74A);
    (0x7A6, 0x7B0); (0x7EB, 0x7F5); (0x7FA, 0x7FA); (0x7FD, 0x7FD);
    (0x816, 0x82D); (0x859, 0x85B); (0x888, 0x888); (0x890, 0x891);
    (0x898, 0x89F); (0x8C9, 0x902); (0x93A, 0x93A); (0x93C, 0x93C);
    (0x941, 0x948); (0x94D, 0x94D); (0x951, 0x957); (0x962, 0x963);
    (0x971, 0x971); (0x981, 0x981); (0x9BC, 0x9BC); (0x9C1, 0x9C4);
    (0x9CD, 0x9CD); (0x9E2, 0x9E3); (0x9FE, 0x9FE); (0xA01, 0xA02);
    (0xA3C, 0xA3C); (0xA41, 0xA42); (0xA47, 0xA48); (0xA4B, 0xA4D);
    (0xA51, 0xA51); (0xA70, 0xA71); (0xA75, 0xA75); (0xA81, 0xA82);
    (0xABC, 0xABC); (0xAC1, 0xAC5); (0xAC7, 0xAC8); (0xACD, 0xACD);
    (0xAE2, 0xAE3); (0xAFA, 0xAFF); (0xB01, 0xB01); (0xB3C, 0xB3C);
    (0xB3F, 0xB3F); (0xB41, 0xB44); (0xB4D, 0xB4D); (0xB55, 0xB56);
    (0xB62, 0xB63); (0xB82, 0xB82); (0xBC0, 0xBC0); (0xBCD, 0xBCD);
    (0xC00, 0xC00); (0xC04, 0xC04); (0xC3C, 0xC3C); (0xC3E, 0xC40);
    (0xC46, 0xC48); (0xC4A, 0xC4D); (0xC55, 0xC56); (0xC62, 0xC63);
    (0xC81, 0xC81); (0xCBC, 0xCBC); (0xCBF, 0xCBF); (0xCC6, 0xCC6);
    (0xCCC, 0xCCD); (0xCE2, 0xCE3); (0xD00, 0xD01); (0xD3B, 0xD3C);
    (0xD41, 0xD44); (0xD4D, 0xD4D); (0xD62, 0xD63); (0xD81, 0xD81);
    (0xDCA, 0xDCA); (0xDD2, 0xDD4); (0xDD6, 0xDD6); (0xE31, 0xE31);
    (0xE34, 0xE3A); (0xE46, 0xE4E); (0xEB1, 0xEB1); (0xEB4, 0xEBC);
    (0xEC6, 0xEC6); (0xEC8, 0xECD); (0xF18, 0xF19); (0xF35, 0xF35);
    (0xF37, 0xF37); (0xF39, 0xF39); (0xF71, 0xF7E); (0xF80, 0xF84);
    (0xF86, 0xF87); (0xF8D, 0xF97); (0xF99, 0xFBC); (0xFC6, 0xFC6);
    (0x102D, 0x1030); (0x1032, 0x1037); (0x1039, 0x103A); (0x103D, 0x103E);
    (0x1058, 0x1059); (0x105E, 0x1060); (0x1071, 0x1074); (0x1082, 0x1082);
    (0x1085, 0x1086); (0x108D, 0x108D); (0x109D, 0x109D); (0x10FC, 0x10FC);
    (0x135D, 0x135F); (0x1712, 0x1714); (0x1732, 0x1733); (0x1752, 0x1753);
    (0x1772, 0x1773); (0x17B4, 0x17B5); (0x17B7, 0x17BD); (0x17C6, 0x17C6);
    (0x17C9, 0x17D3); (0x17D7, 0x17D7); (0x17DD, 0x17DD); (0x180B, 0x180F);
    (0x1843, 0x1843); (0x1885, 0x1886); (0x18A9, 0x18A9); (0x1920, 0x1922);
    (0x1927, 0x1928); (0x1932, 0x1932); (0x1939, 0x193B); (0x1A17, 0x1A18);
    (0x1A1B, 0x1A1B); (0x1A56, 0x1A56); (0x1A58, 0x1A5E); (0x1A60, 0x1A60);
    (0x1A62, 0x1A62); (0x1A65, 0x1A6C); (0x1A73, 0x1A7C); (0x1A7F, 0x1A7F);
    (0x1AA7, 0x1AA7); (0x1AB0, 0x1ACE); (0x1B00, 0x1B03); (0x1B34, 0x1B34);
    (0x1B36, 0x1B3A); (0x1B3C, 0x1B3C); (0x1B42, 0x1B42); (0x1B6B, 0x1B73);
    (0x1B80, 0x1B81); (0x1BA2, 0x1BA5); (0x1BA8, 0x1BA9); (0x1BAB, 0x1BAD);
    (0x1BE6, 0x1BE6); (0x1BE8, 0x1BE9); (0x1BED, 0x1BED); (0x1BEF, 0x1BF1);
    (0x1C2C, 0x1C33); (0x1C36, 0x1C37); (0x1C78, 0x1C7D); (0x1CD0, 0x1CD2);
    (0x1CD4, 0x1CE0); (0x1CE2, 0x1CE8); (0x1CED, 0x1CED); (0x1CF4, 0x1CF4);
    (0x1CF8, 0x1CF9); (0x1D2C, 0x1D6A); (0x1D78, 0x1D78); (0x1D9B, 0x1DFF);
    (0x1FBD, 0x1FBD); (0x1FBF, 0x1FC1); (0x1FCD, 0x1FCF); (0x1FDD, 0x1FDF);
    (0x1FED, 0x1FEF); (0x1FFD, 0x1FFE); (0x200B, 0x200F); (0x2018, 0x2019);
    (0x2024, 0x2024); (0x2027, 0x2027); (0x202A, 0x202E); (0x2060, 0x2064);
    (0x2066, 0x206F); (0x2071, 0x2071); (0x207F, 0x207F); (0x2090, 0x209C);
    (0x20D0, 0x20F0); (0x2C7C, 0x2C7D); (0x2CEF, 0x2CF1); (0x2D6F, 0x2D6F);
    (0x2D7F, 0x2D7F); (0x2DE0, 0x2DFF); (0x2E2F, 0x2E2F); (0x3005, 0x3005);
    (0x302A, 0x302D); (0x3031, 0x3035); (0x303B, 0x303B); (0x3099, 0x309E);
    (0x30FC, 0x30FE); (0xA015, 0xA015); (0xA4F8, 0xA4FD); (0xA60C, 0xA60C);
    (0xA66F, 0xA672); (0xA674, 0xA67D); (0xA67F, 0xA67F); (0xA69C, 0xA69F);
    (0xA6F0, 0xA6F1); (0xA700, 0xA721); (0xA770, 0xA770); (0xA788, 0xA78A);
    (0xA7F2, 0xA7F4); (0xA7F8, 0xA7F9); (0xA802, 0xA802); (0xA806, 0xA806);
    (0xA80B, 0xA80B); (0xA825, 0xA826); (0xA82C, 0xA82C); (0xA8C4, 0xA8C5);
    (0xA8E0, 0xA8F1); (0xA8FF, 0xA8FF); (0xA926, 0xA92D); (0xA947, 0xA951);
    (0xA980, 0xA982); (0xA9B3, 0xA9B3); (0xA9B6, 0xA9B9); (0xA9BC, 0xA9BD);
    (0xA9CF, 0xA9CF); (0xA9E5, 0xA9E6); (0xAA29, 0xAA2E); (0xAA31, 0xAA32);
    (0xAA35, 0xAA36); (0xAA43, 0xAA43); (0xAA4C, 0xAA4C); (0xAA70, 0xAA70);
    (0xAA7C, 0xAA7C); (0xAAB0, 0xAAB0); (0xAAB2, 0xAAB4); (0xAAB7, 0xAAB8);
    (0xAABE, 0xAABF); (0xAAC1, 0xAAC1); (0xAADD, 0xAADD); (0xAAEC, 0xAAED);
    (0xAAF3, 0xAAF4); (0xAAF6, 0xAAF6); (0xAB5B, 0xAB5F); (0xAB69, 0xAB6B);
    (0xABE5, 0xABE5); (0xABE8, 0xABE8); (0xABED, 0xABED); (0xFB1E, 0xFB1E);
    (0xFBB2, 0xFBC2); (0xFE00, 0xFE0F); (0xFE13, 0xFE13); (0xFE20, 0xFE2F);
    (0xFE52, 0xFE52); (0xFE55, 0xFE55); (0xFEFF, 0xFEFF); (0xFF07, 0xFF07);
    (0xFF0E, 0xFF0E); (0xFF1A, 0xFF1A); (0xFF3E, 0xFF3E); (0xFF40, 0xFF40);
    (0xFF70, 0xFF70); (0xFF9E, 0xFF9F); (0xFFE3, 0xFFE3); (0xFFF9, 0xFFFB);
    (0x101FD, 0x101FD); (0x102E0, 0x102E0); (0x10376, 0x1037A); (0x10780, 0x10785);
    (0x10787, 0x107B0); (0x107B2, 0x107BA); (0x10A01, 0x10A03); (0x10A05, 0x10A06);
    (0x10A0C, 0x10A0F); (0x10A38, 0x10A3A); (0x10A3F, 0x10A3F); (0x10AE5, 0x10AE6);
    (0x10D24, 0x10D27); (0x10EAB, 0x10EAC); (0x10F46, 0x10F50); (0x10F82, 0x10F85);
    (0x11001, 0x11001); (0x11038, 0x11046); (0x11070, 0x11070); (0x11073, 0x11074);
    (0x1107F, 0x11081); (0x110B3, 0x110B6); (0x110B9, 0x110BA); (0x110BD, 0x110BD);
    (0x110C2, 0x110C2); (0x110CD, 0x110CD); (0x11100, 0x11102); (0x11127, 0x1112B);
    (0x1112D, 0x11134); (0x11173, 0x11173); (0x11180, 0x11181); (0x111B6, 0x111BE);
    (0x111C9, 0x111CC); (0x111CF, 0x111CF); (0x1122F, 0x11231); (0x11234, 0x11234);
    (0x11236, 0x11237); (0x1123E, 0x1123E); (0x112DF, 0x112DF); (0x112E3, 0x112EA);
    (0x11300, 0x11301); (0x1133B, 0x1133C); (0x11340, 0x11340); (0x11366, 0x1136C);
    (0x11370, 0x11374); (0x11438, 0x1143F); (0x11442, 0x11444); (0x11446, 0x11446);
    (0x1145E, 0x1145E); (0x114B3, 0x114B8); (0x114BA, 0x114BA); (0x114BF, 0x114C0);
    (0x114C2, 0x114C3); (0x115B2, 0x115B5); (0x115BC, 0x115BD); (0x115BF, 0x115C0);
    (0x115DC, 0x115DD); (0x11633, 0x1163A); (0x1163D, 0x1163D); (0x1163F, 0x11640);
    (0x116AB, 0x116AB); (0x116AD, 0x116AD); (0x116B0, 0x116B5); (0x116B7, 0x116B7);
    (0x1171D, 0x1171F); (0x11722, 0x11725); (0x11727, 0x1172B); (0x1182F, 0x11837);
    (0x11839, 0x1183A); (0x1193B, 0x1193C); (0x1193E, 0x1193E); (0x11943, 0x11943);
    (0x119D4, 0x119D7); (0x119DA, 0x119DB); (0x119E0, 0x119E0); (0x11A01, 0x11A0A);
    (0x11A33, 0x11A38); (0x11A3B, 0x11A3E); (0x11A47, 0x11A47); (0x11A51, 0x11A56);
    (0x11A59, 0x11A5B); (0x11A8A, 0x11A96); (0x11A98, 0x11A99); (0x11C30, 0x11C36);
    (0x11C38, 0x11C3D); (0x11C3F, 0x11C3F); (0x11C92, 0x11CA7); (0x11CAA, 0x11CB0);
    (0x11CB2, 0x11CB3); (0x11CB5, 0x11CB6); (0x11D31, 0x11D36); (0x11D3A, 0x11D3A);
    (0x11D3C, 0x11D3D); (0x11D3F, 0x11D45); (0x11D47, 0x11D47); (0x11D90, 0x11D91);
    (0x11D95, 0x11D95); (0x11D97, 0x11D97); (0x11EF3, 0x11EF4); (0x13430, 0x13438);
    (0x16AF0, 0x16AF4); (0x16B30, 0x16B36); (0x16B40, 0x16B43); (0x16F4F, 0x16F4F);
    (0x16F8F, 0x16F9F); (0x16FE0, 0x16FE1); (0x16FE3, 0x16FE4); (0x1AFF0, 0x1AFF3);
    (0x1AFF5, 0x1AFFB); (0x1AFFD, 0x1AFFE); (0x1BC9D, 0x1BC9E); (0x1BCA0, 0x1BCA3);
    (0x1CF00, 0x1CF2D); (0x1CF30, 0x1CF46); (0x1D167, 0x1D169); (0x1D173, 0x1D182);
    (0x1D185, 0x1D18B); (0x1D1AA, 0x1D1AD); (0x1D242, 0x1D244); (0x1DA00, 0x1DA36);
    (0x1DA3B, 0x1DA6C); (0x1DA75, 0x1DA75); (0x1DA84, 0x1DA84); (0x1DA9B, 0x1DA9F);
    (0x1DAA1, 0x1DAAF); (0x1E000, 0x1E006); (0x1E008, 0x1E018); (0x1E01B, 0x1E021);
    (0x1E023, 0x1E024); (0x1E026, 0x1E02A); (0x1E130, 0x1E13D); (0x1E2AE, 0x1E2AE);
    (0x1E2EC, 0x1E2EF); (0x1E8D0, 0x1E8D6); (0x1E944, 0x1E94B); (0x1F3FB, 0x1F3FF);
    (0xE0001, 0xE0001); (0xE0020, 0xE007F); (0xE0100, 0xE01EF) ].

Definition inRanges (ranges : list (N * N)) (cp : N) : bool :=
  existsb (λ r, (r.1 <=? cp) && (cp <=? r.2)) ranges.

Definition isCased (cp : N) : bool := inRanges casedRanges cp.
Definition isCaseIgnorable (cp : N) : bool := inRanges caseIgnorableRanges cp.

Fixpoint lowerIn (rows : list (N * N * N * N)) (cp : N) : N :=
  match rows with
  | [] => cp
  | (lo, hi, step, to) :: rows' =>
      if (lo <=? cp) && (cp <=? hi) && ((cp - lo) mod step =? 0)
      then to + (cp - lo)
      else lowerIn rows' cp
  end.

(** The lower-case mapping of one code point, out of context. *)
Definition simpleLower (cp : N) : N := lowerIn lowerRows cp.

(** The condition Final_Sigma: going backwards over case-ignorable code
    points there is a cased one, and going forwards over case-ignorable
    code points there is none.  [before] lists the preceding code points,
    the nearest first. *)
Fixpoint skipIgnorable (cps : list N) : list N :=
  match cps with
  | [] => []
  | c :: rest => if isCaseIgnorable c then skipIgnorable rest else cps
  end.

Definition casedNext (cps : list N) : bool :=
  match skipIgnorable cps with
  | c :: _ => isCased c
  | [] => false
  end.

Definition finalSigma (before after : list N) : bool :=
  casedNext before && negb (casedNext after).

(** The default case conversion to lower case: capital sigma becomes the
    final or the medial small sigma, capital I with dot above becomes i
    followed by a combining dot, every other code point goes through the
    table. *)
Fixpoint lowerFrom (before cps : list N) : list N :=
  match cps with
  | [] => []
  | c :: rest =>
      (if c =? 0x3A3 then [if finalSigma before rest then 0x3C2 else 0x3C3]
       else if c =? 0x130 then [0x69; 0x307]
       else [simpleLower c])
      ++ lowerFrom (c :: before) rest
  end.

Definition toLowerCase (s : list N) : list N :=
  codePointsToString (lowerFrom [] (stringToCodePoints s)).

(** [String.prototype.includes], on code units. *)
Fixpoint startsWith (s p : list N) {struct p} : bool :=
  match p, s with
  | [], _ => true
  | _ :: _, [] => false
  | a :: p', b :: s' => if a =? b then startsWith s' p' else false
  end.

Fixpoint includes (s sub : list N) : bool :=
  startsWith s sub ||
  match s with
  | [] => false
  | _ :: s' => includes s' sub
  end.

(** The predicate handed to [stations.filter], and the filter. *)
Definition matchesQuery (searchQuery : string)
    (station : MapView.ChargingStation) : bool :=
  includes (toLowerCase (js (MapView.name station)))
    (toLowerCase (js searchQuery))
  || includes (toLowerCase (js (MapView.address station)))
       (toLowerCase (js searchQuery)).

Definition filteredStations (stations : list MapView.ChargingStation)
    (searchQuery : string) : list MapView.ChargingStation :=
  List.filter (matchesQuery searchQuery) stations.

Example lower_cafe : toLowerCase (js "CAFÉ") = js "café".
Proof. by vm_compute. Qed.

Example lower_sigma :
  toLowerCase (js "ΥΣ") = js "υς" ∧ toLowerCase (js "Σ") = js "σ"
  ∧ toLowerCase (js "ΟΔΟΣ ΣΟΦΙΑΣ") = js "οδος σοφιας".
Proof. by vm_compute. Qed.

(** The conversion on sample text, as the built-in gives it. *)
Example lower_samples :
  forallb (λ p : string * string,
             bool_decide (toLowerCase (js p.1) = js p.2))
    [("ΑΣΑ", "ασα");
     ("ΣΑΣ", "σας");
     ("ΑΣ", "ας");
     ("Σ", "σ");
     ("Α.Σ", "α.ς");
     ("Α.Σ.Α", "α.σ.α");
     ("ΑΣ Α", "ας α");
     ("1Σ", "1σ");
     ("ΑΣ1", "ας1");
     ("Α'Σ'Β", "α'σ'β");
     ("ÀÉÎÕÜ", "àéîõü");
     ("ǅ", "ǆ");
     ("Ǆ", "ǆ");
     ("ẞ", "ß");
     ("SS", "ss");
     ("K", "k");
     ("Å", "å");
     ("Ⅷ", "ⅷ");
     ("Ⓐ", "ⓐ");
     ("Ａ", "ａ");
     ("ᾈ", "ᾀ");
     ("Ω", "ω");
     ("Straße", "straße");
     ("I", "i");
     ("İstanbul", "i̇stanbul");
     ("ΟΔΌΣ", "οδός")]
  = true.
Proof. by vm_compute. Qed.

Example lower_dotted_i : toLowerCase (js "İ") = [0x69; 0x307].
Proof. by vm_compute. Qed.

Example lower_deseret : toLowerCase [0xD801; 0xDC00] = [0xD801; 0xDC28].
Proof. by vm_compute. Qed.

(** *** Containment *)

(** [sub] occurs in [s]. *)
Definition contains (sub s : list N) : Prop :=
  ∃ pre post : list N, s = pre ++ sub ++ post.

Lemma units_startsWith_spec (s p : list N) :
  startsWith s p = true ↔ ∃ post, s = p ++ post.
Proof.
  revert s; induction p as [|a p IH]; intros s; simpl.
  - split; [intros _; by exists s | done].
  - destruct s as [|b s].
    + split; [done | intros [post H]; discriminate H].
    + destruct (N.eqb_spec a b) as [->|Hne].
      * rewrite IH. split; intros [post H]; exists post.
        -- by rewrite H.
        -- by injection H.
      * split; [done | intros [post H]; injection H; congruence].
Qed.

Lemma units_includes_spec (s sub : list N) :
  includes s sub = true ↔ contains sub s.
Proof.
  unfold contains. induction s as [|c s IH]; simpl.
  - rewrite orb_false_r, units_startsWith_spec. split.
    + intros [post H]. by exists [], post.
    + intros [pre [post H]]. destruct pre; [by exists post | discriminate H].
  - rewrite orb_true_iff, units_startsWith_spec, IH. split.
    + intros [[post H] | [pre [post H]]].
      * by exists [], post.
      * exists (c :: pre), post. simpl. by rewrite H.
    + intros [pre [post H]]. destruct pre as [|c' pre]; simpl in H.
      * left. by exists post.
      * right. exists pre, post. by injection H.
Qed.

Lemma contains_trans (a b c : list N) :
  contains a b → contains b c → contains a c.
Proof.
  intros (p1 & s1 & ->) (p2 & s2 & ->).
  exists (p2 ++ p1), (s1 ++ s2). by rewrite <- !app_assoc.
Qed.

Lemma units_includes_trans (a b c : list N) :
  includes b a = true → includes c b = true → includes c a = true.
Proof. rewrite !units_includes_spec. apply contains_trans. Qed.

(** *** The ASCII range *)

(** The code units of a literal whose bytes are all below 128. *)
Fixpoint asciiOnly (s : string) : bool :=
  match s with
  | EmptyString => true
  | String a s' => (byte a <? 0x80) && asciiOnly s'
  end.

Fixpoint bytes (s : string) : list N :=
  match s with
  | EmptyString => []
  | String a s' => byte a :: bytes s'
  end.

Lemma byte_lowerChar (a : ascii) :
  (byte a <? 0x80) = true →
  simpleLower (byte a) = byte (JsString.lowerChar a)
  ∧ (byte a =? 0x3A3) = false ∧ (byte a =? 0x130) = false
  ∧ (byte (JsString.lowerChar a) <? 0x80) = true.
Proof.
  destruct a as [[] [] [] [] [] [] [] []]; vm_compute; intros H;
    first [discriminate H | done].
Qed.

Lemma byte_eqb (a b : ascii) : (byte a =? byte b) = Ascii.eqb a b.
Proof.
  destruct (Ascii.eqb_spec a b) as [->|Hne]; [apply N.eqb_refl|].
  apply N.eqb_neq. intros H. apply Hne. unfold byte in H.
  rewrite <- (ascii_N_embedding a), H. apply ascii_N_embedding.
Qed.

Lemma js_ascii (s : string) : asciiOnly s = true → js s = bytes s.
Proof.
  unfold js. induction s as [|a s IH]; [done|].
  intros [Ha Hs]%andb_true_iff.
  assert (Hd : utf8Decode (String a s) = byte a :: utf8Decode s).
  { simpl. by rewrite Ha. }
  rewrite Hd. simpl. rewrite IH by done.
  unfold codePointToUnits.
  assert (Hlt : (byte a <? 0x10000) = true).
  { apply N.ltb_lt. apply N.ltb_lt in Ha. lia. }
  by rewrite Hlt.
Qed.

Lemma stringToCodePoints_ascii (s : string) :
  asciiOnly s = true → stringToCodePoints (bytes s) = bytes s.
Proof.
  induction s as [|a s IH]; [done|].
  intros [Ha Hs]%andb_true_iff. specialize (IH Hs).
  change (bytes (String a s)) with (byte a :: bytes s).
  assert (Hh : isHigh (byte a) = false).
  { unfold isHigh. apply N.ltb_lt in Ha. apply andb_false_iff. left.
    apply N.leb_gt. lia. }
  destruct s as [|b s]; [done|].
  change (bytes (String b s)) with (byte b :: bytes s) in *.
  change (stringToCodePoints (byte a :: byte b :: bytes s))
    with (if isHigh (byte a) && isLow (byte b)
          then (0x10000 + (byte a - 0xD800) * 0x400 + (byte b - 0xDC00))
               :: stringToCodePoints (bytes s)
          else byte a :: stringToCodePoints (byte b :: bytes s)).
  by rewrite Hh, IH.
Qed.

Lemma lowerFrom_ascii (before : list N) (s : string) :
  asciiOnly s = true →
  lowerFrom before (bytes s) = bytes (JsString.toLowerCase s).
Proof.
  revert before. induction s as [|a s IH]; intros before; [done|].
  intros [Ha Hs]%andb_true_iff.
  destruct (byte_lowerChar a Ha) as (Hl & H1 & H2 & _).
  simpl. by rewrite H1, H2, Hl, IH.
Qed.

Lemma asciiOnly_toLowerCase (s : string) :
  asciiOnly s = true → asciiOnly (JsString.toLowerCase s) = true.
Proof.
  induction s as [|a s IH]; [done|].
  intros [Ha Hs]%andb_true_iff. simpl.
  destruct (byte_lowerChar a Ha) as (_ & _ & _ & ->). by apply IH.
Qed.

Lemma codePointsToString_ascii (s : string) :
  asciiOnly s = true → codePointsToString (bytes s) = bytes s.
Proof.
  induction s as [|a s IH]; [done|].
  intros [Ha Hs]%andb_true_iff. simpl. unfold codePointToUnits.
  assert (Hlt : (byte a <? 0x10000) = true).
  { apply N.ltb_lt. apply N.ltb_lt in Ha. lia. }
  rewrite Hlt. simpl. f_equal. by apply IH.
Qed.

(** On a literal of the ASCII range the built-in is the conversion of the
    letters A to Z. *)
Lemma toLowerCase_ascii (s : string) :
  asciiOnly s = true → toLowerCase (js s) = js (JsString.toLowerCase s).
Proof.
  intros Hs. pose proof (asciiOnly_toLowerCase s Hs) as Hl.
  rewrite (js_ascii s Hs), (js_ascii _ Hl). unfold toLowerCase.
  rewrite (stringToCodePoints_ascii s Hs), (lowerFrom_ascii [] s Hs).
  by apply codePointsToString_ascii.
Qed.

Lemma startsWith_bytes (s p : string) :
  startsWith (bytes s) (bytes p) = JsString.startsWith s p.
Proof.
  revert s; induction p as [|a p IH]; intros s; [done|].
  destruct s as [|b s]; [done|]. simpl. rewrite byte_eqb, IH. done.
Qed.

Lemma includes_bytes (s sub : string) :
  includes (bytes s) (bytes sub) = JsString.includes s sub.
Proof.
  induction s as [|b s IH]; simpl.
  - by rewrite <- (startsWith_bytes "" sub).
  - by rewrite <- (startsWith_bytes (String b s) sub), IH.
Qed.

Lemma includes_ascii (s sub : string) :
  asciiOnly s = true → asciiOnly sub = true →
  includes (toLowerCase (js s)) (toLowerCase (js sub))
  = JsString.includes (JsString.toLowerCase s) (JsString.toLowerCase sub).
Proof.
  intros Hs Hsub. rewrite !toLowerCase_ascii by done.
  rewrite !js_ascii by by apply asciiOnly_toLowerCase.
  apply includes_bytes.
Qed.

(** On ASCII data the search is the one of the module [MapView]. *)
Lemma matchesQuery_ascii (q : string) (s : MapView.ChargingStation) :
  asciiOnly q = true → asciiOnly (MapView.name s) = true →
  asciiOnly (MapView.address s) = true →
  matchesQuery q s = MapView.matchesQuery q s.
Proof.
  intros Hq Hn Ha. unfold matchesQuery, MapView.matchesQuery.
  by rewrite !includes_ascii.
Qed.

(** *** Case-insensitive containment of ASCII text, spelled out *)

(** Two bytes that are the same letter: they are equal, or one is a capital
    of ['A'..'Z'] and the other the small letter 32 places after it. *)
Definition isUpperByte (n : N) : bool := (0x41 <=? n) && (n <=? 0x5A).

Definition sameLetter (a b : ascii) : Prop :=
  byte a = byte b
  ∨ (isUpperByte (byte a) = true ∧ byte b = byte a + 0x20)
  ∨ (isUpperByte (byte b) = true ∧ byte a = byte b + 0x20).

(** Two texts that are equal up to letter case. *)
Inductive eq_ci : string → string → Prop :=
| eq_ci_nil : eq_ci EmptyString EmptyString
| eq_ci_cons (a b : ascii) (s t : string) :
    sameLetter a b → eq_ci s t → eq_ci (String a s) (String b t).

(** The words of the specification, for ASCII text: a part of [s] is [q]
    up to letter case. *)
Definition ci_occurs (q s : string) : Prop :=
  ∃ pre mid post : string, s = (pre +:+ mid +:+ post)%string ∧ eq_ci mid q.

Definition ci_found (q : string) (s : MapView.ChargingStation) : Prop :=
  ci_occurs q (MapView.name s) ∨ ci_occurs q (MapView.address s).

Lemma byte_inj (a b : ascii) : byte a = byte b → a = b.
Proof.
  unfold byte. intros H.
  rewrite <- (ascii_N_embedding a), H. apply ascii_N_embedding.
Qed.

Lemma byte_lowerChar_cases (a : ascii) :
  byte (JsString.lowerChar a)
  = if isUpperByte (byte a) then byte a + 0x20 else byte a.
Proof. by destruct a as [[] [] [] [] [] [] [] []]. Qed.

Lemma lowerChar_sameLetter (a b : ascii) :
  JsString.lowerChar a = JsString.lowerChar b ↔ sameLetter a b.
Proof.
  unfold sameLetter. split.
  - intros H. apply (f_equal byte) in H.
    rewrite !byte_lowerChar_cases in H. unfold isUpperByte in *.
    destruct (0x41 <=? byte a) eqn:E1, (byte a <=? 0x5A) eqn:E2,
      (0x41 <=? byte b) eqn:E3, (byte b <=? 0x5A) eqn:E4; simpl in *;
      rewrite ?N.leb_le, ?N.leb_gt in *; first [left; lia | right; left; split; [done | lia] | right; right; split; [done | lia]].
  - intros H. apply byte_inj. rewrite !byte_lowerChar_cases.
    unfold isUpperByte in *.
    destruct (0x41 <=? byte a) eqn:E1, (byte a <=? 0x5A) eqn:E2,
      (0x41 <=? byte b) eqn:E3, (byte b <=? 0x5A) eqn:E4; simpl in *;
      rewrite ?N.leb_le, ?N.leb_gt in *;
      destruct H as [H | [[H1 H2] | [H1 H2]]]; try discriminate; lia.
Qed.

Lemma toLowerCase_eq_ci (s t : string) :
  JsString.toLowerCase s = JsString.toLowerCase t ↔ eq_ci s t.
Proof.
  split.
  - revert t. induction s as [|a s IH]; intros [|b t] H; simpl in H;
      try discriminate H; [constructor|].
    injection H as Hc Hs. constructor; [by apply lowerChar_sameLetter|].
    by apply IH.
  - induction 1 as [|a b s t Hab _ IH]; [done|]. simpl.
    apply lowerChar_sameLetter in Hab. by rewrite Hab, IH.
Qed.

Lemma ci_match_ci_found (q : string) (s : MapView.ChargingStation) :
  MapView.ci_match q s ↔ ci_found q s.
Proof.
  unfold MapView.ci_match, ci_found, JsString.ci_substring, ci_occurs.
  split; intros [H|H]; [left | right | left | right];
    destruct H as (pre & mid & post & Hs & Hm); exists pre, mid, post;
    (split; [exact Hs|]); by apply toLowerCase_eq_ci.
Qed.

(** *** The search filter, with the built-in *)

(** What the program tests: the lower-cased query occurs in the lower-cased
    name or in the lower-cased address. *)
Definition lowered_match (q : string) (s : MapView.ChargingStation) : Prop :=
  contains (toLowerCase (js q)) (toLowerCase (js (MapView.name s)))
  ∨ contains (toLowerCase (js q)) (toLowerCase (js (MapView.address s))).

(** The words of the specification: a part of [s] is [q] up to letter
    case. *)
Definition ci_contains (q s : string) : Prop :=
  ∃ pre mid post : list N,
    js s = pre ++ mid ++ post ∧ toLowerCase mid = toLowerCase (js q).

Definition asciiStation (s : MapView.ChargingStation) : Prop :=
  asciiOnly (MapView.name s) = true ∧ asciiOnly (MapView.address s) = true.

Lemma matchesQuery_lowered (q : string) (s : MapView.ChargingStation) :
  matchesQuery q s = true ↔ lowered_match q s.
Proof.
  unfold matchesQuery, lowered_match.
  by rewrite orb_true_iff, !units_includes_spec.
Qed.

(** C1, as the program has it.  The station filter returns exactly the
    stations whose lower-cased name or lower-cased address contains the
    lower-cased query: the result is a subsequence of the input in the
    original order, its members are those stations, none of them is dropped
    (any order-preserving selection of them is within the result), and it
    is the empty sequence when there is none.  When query, name and address
    are ASCII, these are the stations whose name or address has a part
    equal to the query up to the case of the letters A to Z. *)
Theorem filteredStations_lowered (S : list MapView.ChargingStation) (q : string) :
  filteredStations S q `sublist_of` S
  ∧ (∀ s, s ∈ filteredStations S q ↔ s ∈ S ∧ lowered_match q s)
  ∧ (∀ K, K `sublist_of` S → Forall (lowered_match q) K →
          K `sublist_of` filteredStations S q)
  ∧ ((∀ s, s ∈ S → ¬ lowered_match q s) → filteredStations S q = [])
  ∧ (asciiOnly q = true → ∀ s, asciiStation s →
       (lowered_match q s ↔ ci_found q s)).
Proof.
  unfold filteredStations. split; [|split; [|split; [|split]]].
  - apply MapView.js_filter_sublist.
  - intros s. by rewrite MapView.js_filter_elem_of, matchesQuery_lowered.
  - intros K HK HF. apply MapView.js_filter_greatest; [done|].
    eapply Forall_impl; [exact HF|]. intros s. apply matchesQuery_lowered.
  - intros Hnone. apply MapView.js_filter_none, Forall_forall. intros s Hs.
    destruct (matchesQuery q s) eqn:E; [|done].
    destruct (Hnone s Hs). by apply matchesQuery_lowered.
  - intros Hq s [Hn Ha].
    rewrite <- matchesQuery_lowered, <- ci_match_ci_found,
      <- MapView.matchesQuery_ci_match.
    by rewrite matchesQuery_ascii.
Qed.

Lemma filteredStations_lowered_witness :
  lowered_match "BEACH" MapView.beachResort
  ↔ ci_found "BEACH" MapView.beachResort.
Proof.
  destruct (filteredStations_lowered MapView.mockStations "BEACH")
    as (_ & _ & _ & _ & Hascii).
  apply Hascii; [reflexivity | split; reflexivity].
Defined.

(** A station of Greek name. *)
Definition upsilonSigma : MapView.ChargingStation :=
  {| MapView.id := "7"; MapView.name := "ΥΣ";
     MapView.address := "1 Main St, Miami, FL";
     MapView.lat := 25.7617; MapView.lng := -80.1918;
     MapView.available := 1; MapView.total := 2; MapView.cost := 0.35;
     MapView.amenities := []; MapView.status := "available" |}.

(** C1 as stated fails: the name of the station contains the query capital
    sigma, as it stands and hence up to letter case, and the filter does not
    return the station: at the end of the name the built-in turns the sigma
    into its final form, which is not the lower-cased query. *)
Lemma final_sigma_missed :
  includes (js (MapView.name upsilonSigma)) (js "Σ") = true
  ∧ ci_contains "Σ" (MapView.name upsilonSigma)
  ∧ filteredStations [upsilonSigma] "Σ" = [].
Proof.
  split; [by vm_compute|]. split; [|by vm_compute].
  exists (js "Υ"), (js "Σ"), []. split; by vm_compute.
Qed.

Example filter_cafe :
  let cafe := {| MapView.id := "7"; MapView.name := "Café Charge";
                 MapView.address := "7 Rue, Miami"; MapView.lat := 0;
                 MapView.lng := 0; MapView.available := 1;
                 MapView.total := 1; MapView.cost := 0;
                 MapView.amenities := []; MapView.status := "available" |} in
  List.map MapView.id (filteredStations [cafe] "CAFÉ") = ["7"%string].
Proof. by vm_compute. Qed.

Lemma asciiOnly_app (s t : string) :
  asciiOnly s = true → asciiOnly t = true → asciiOnly (s +:+ t) = true.
Proof.
  intros Hs Ht. induction s as [|a s IH]; [done|].
  apply andb_true_iff in Hs as [Ha Hs].
  change (asciiOnly (String a (s +:+ t)) = true). simpl.
  by rewrite Ha, IH.
Qed.

(** X3. Extending a query narrows the result.  When the lower-cased query
    [q] occurs in the lower-cased query [q'], every station found for [q']
    is found for [q], in the same order, and searching for [q'] among the
    stations found for [q] gives what searching all stations for [q']
    gives.  That is the case when ASCII text is typed after an ASCII
    query. *)
Theorem narrowing (S : list MapView.ChargingStation) (q q' : string) :
  (includes (toLowerCase (js q')) (toLowerCase (js q)) = true →
     filteredStations S q' `sublist_of` filteredStations S q
     ∧ filteredStations (filteredStations S q) q' = filteredStations S q')
  ∧ (∀ typed, asciiOnly q = true → asciiOnly typed = true →
       filteredStations S (q +:+ typed) `sublist_of` filteredStations S q).
Proof.
  assert (Hgen : ∀ q1 q2,
            includes (toLowerCase (js q2)) (toLowerCase (js q1)) = true →
            filteredStations S q2 `sublist_of` filteredStations S q1
            ∧ filteredStations (filteredStations S q1) q2
              = filteredStations S q2).
  { intros q1 q2 Hq.
    assert (Himp : ∀ s, matchesQuery q2 s = true → matchesQuery q1 s = true).
    { intros s. unfold matchesQuery. rewrite !orb_true_iff.
      intros [H|H]; [left | right]; by eapply units_includes_trans. }
    assert (Habs : filteredStations (filteredStations S q1) q2
                   = filteredStations S q2).
    { unfold filteredStations. by apply MapView.js_filter_absorb. }
    split; [|exact Habs]. rewrite <- Habs. apply MapView.js_filter_sublist. }
  split; [apply Hgen|].
  intros typed Hq Ht. apply Hgen.
  rewrite includes_ascii; [| by apply asciiOnly_app | done].
  apply JsString.includes_spec. rewrite JsString.toLowerCase_app.
  by exists ""%string, (JsString.toLowerCase typed).
Qed.

Lemma narrowing_witness :
  filteredStations MapView.mockStations "Miami Beach"
    `sublist_of` filteredStations MapView.mockStations "miami"
  ∧ filteredStations (filteredStations MapView.mockStations "miami") "Miami Beach"
    = filteredStations MapView.mockStations "Miami Beach".
Proof.
  destruct (narrowing MapView.mockStations "miami" "Miami Beach") as [Hnarrow _].
  apply Hnarrow. by vm_compute.
Defined.

Lemma filteredStations_ascii (S : list MapView.ChargingStation) (q : string) :
  asciiOnly q = true → Forall asciiStation S →
  filteredStations S q = MapView.filteredStations S q.
Proof.
  intros Hq HS. unfold filteredStations, MapView.filteredStations.
  induction HS as [|s S [Hn Ha] _ IH]; simpl; [done|].
  by rewrite (matchesQuery_ascii q s Hq Hn Ha), IH.
Qed.

End Unicode.
